(** * Security Monitor (App.tsx): detection heuristics, capture cooldown,
      alarm gating and timelapse assembly

    A shallow embedding of [src/src/App.tsx].  The component keeps its
    mutable data in React refs and state hooks; here they are the fields of
    one record, [AppState], threaded explicitly through every handler.
    The handlers come at two grains.  In the session model each handler is
    taken together with the render that React schedules after it, so that
    the state updates it queued have run when the next handler starts.  In
    [Scheduled] the updates are queued and a render is a step of its own,
    which may come late.
    JavaScript numbers that hold counters, sizes, samples and clock readings
    are modelled by [Z] (they are integers far below 2^53); the two
    percentage computations are carried out in IEEE-754 binary64, as the
    browser does, through the Standard Library's [SpecFloat]. *)

From Stdlib Require Import ZArith QArith Qround Lia Lqa String List Bool.
From Stdlib Require Import Floats.SpecFloat.
From stdpp Require Import base tactics list.

Local Open Scope Z_scope.

(** ** JavaScript numbers *)

Module Number.

Definition prec : Z := 53.
Definition emax : Z := 1024.

(** An integer seen as a double (exact below 2^53, rounded above). *)
Definition of_Z (z : Z) : spec_float := binary_normalize prec emax z 0 false.

Definition mul : spec_float -> spec_float -> spec_float := SFmul prec emax.
Definition div : spec_float -> spec_float -> spec_float := SFdiv prec emax.
Definition sub : spec_float -> spec_float -> spec_float := SFsub prec emax.

(** [x > y]; false as soon as one side is NaN. *)
Definition gt (x y : spec_float) : bool := SFltb y x.

End Number.

(** ** Pixel buffers *)

(** [ImageData]: [data] is the flat RGBA sample array (a
    [Uint8ClampedArray]), four samples per pixel, row after row. *)
Record ImageData := mkImageData {
  width : Z;
  height : Z;
  data : list Z
}.

(** What the canvas hands out: one sample quadruple per pixel, every
    sample a byte. *)
Definition wf_image (img : ImageData) : Prop :=
  0 < width img /\ 0 < height img /\
  length (data img) = Z.to_nat (4 * (width img * height img)) /\
  Forall (fun v => 0 <= v <= 255) (data img).

(** Reading [data[i]] gives [undefined] out of range; a comparison with
    [undefined] is false and arithmetic on it is NaN. *)
Definition js_gt (x : option Z) (c : Z) : bool :=
  match x with Some v => c <? v | None => false end.

Definition js_lt (x : option Z) (c : Z) : bool :=
  match x with Some v => v <? c | None => false end.

(** [Math.abs(a - b)], [None] standing for NaN. *)
Definition js_abs_sub (a b : option Z) : option Z :=
  match a, b with
  | Some x, Some y => Some (Z.abs (x - y))
  | _, _ => None
  end.

Definition js_add (a b : option Z) : option Z :=
  match a, b with
  | Some x, Some y => Some (x + y)
  | _, _ => None
  end.

(** ** Fire heuristic (detectFire) *)

(** The test of line 124 on the pixel that starts at index [i]. *)
Definition fire_test (d : list Z) (i : nat) : bool :=
  let r := d !! i in
  let g := d !! (i + 1)%nat in
  let b := d !! (i + 2)%nat in
  js_gt r 200 && js_lt g 140 && js_lt b 40.

(** [for (let i = 0; i < data.length; i += 4)]. *)
Fixpoint fire_loop (fuel : nat) (d : list Z) (i : nat) (firePixels : Z) : Z :=
  match fuel with
  | O => firePixels
  | S fuel' =>
      if (i <? length d)%nat then
        fire_loop fuel' d (i + 4)%nat
          (if fire_test d i then firePixels + 1 else firePixels)
      else firePixels
  end.

Definition firePercentage (firePixels totalPixels : Z) : spec_float :=
  Number.mul (Number.div (Number.of_Z firePixels) (Number.of_Z totalPixels))
             (Number.of_Z 100).

Definition detectFire (imageData : ImageData) : bool :=
  let d := data imageData in
  let firePixels := fire_loop (length d) d 0 0 in
  let totalPixels := width imageData * height imageData in
  Number.gt (firePercentage firePixels totalPixels) (Number.of_Z 1).

(** ** Motion heuristic (lines 157-169 of detectMotion) *)

(** [diff] of lines 160-162 for the pixel that starts at index [i]. *)
Definition pixel_diff (cur prev : list Z) (i : nat) : option Z :=
  js_add
    (js_add (js_abs_sub (cur !! i) (prev !! i))
            (js_abs_sub (cur !! (i + 1)%nat) (prev !! (i + 1)%nat)))
    (js_abs_sub (cur !! (i + 2)%nat) (prev !! (i + 2)%nat)).

Definition diff_test (cur prev : list Z) (i : nat) : bool :=
  js_gt (pixel_diff cur prev i) 100.

Fixpoint diff_loop (fuel : nat) (cur prev : list Z) (i : nat) (diffCount : Z) : Z :=
  match fuel with
  | O => diffCount
  | S fuel' =>
      if (i <? length cur)%nat then
        diff_loop fuel' cur prev (i + 4)%nat
          (if diff_test cur prev i then diffCount + 1 else diffCount)
      else diffCount
  end.

Definition diffPercentage (diffCount totalPixels : Z) : spec_float :=
  Number.mul (Number.div (Number.of_Z diffCount) (Number.of_Z totalPixels))
             (Number.of_Z 100).

(** [(100 - sensitivity) / 3]. *)
Definition motionThreshold (sensitivity : Z) : spec_float :=
  Number.div (Number.sub (Number.of_Z 100) (Number.of_Z sensitivity))
             (Number.of_Z 3).

Definition motionHeuristic (currentFrame previousFrame : ImageData)
    (sensitivity : Z) : bool :=
  let diffCount :=
    diff_loop (length (data currentFrame)) (data currentFrame)
              (data previousFrame) 0 0 in
  let totalPixels := width currentFrame * height currentFrame in
  Number.gt (diffPercentage diffCount totalPixels) (motionThreshold sensitivity).

(** ** Component state *)

Local Open Scope string_scope.
Local Open Scope list_scope.
Local Open Scope Z_scope.

Record DetectionState := mkDetection {
  isActive : bool;
  motionDetected : bool;
  fireDetected : bool
}.

Record CapturedFrame := mkCaptured {
  dataUrl : string;
  timestamp : Z
}.

Inductive OscillatorType := sine | square | sawtooth | triangle.

(** One [setValueAtTime(value, time)] on the gain parameter. *)
Record GainEvent := mkGainEvent {
  ev_value : Q;
  ev_time : Q
}.

(** The oscillator with the gain node it is wired through. *)
Record Oscillator := mkOscillator {
  osc_type : OscillatorType;
  osc_frequency : Z;
  osc_gain : list GainEvent;
  osc_running : bool
}.

(** The refs and state hooks of [App]. *)
Record AppState := mkApp {
  previousFrameRef : option ImageData;
  audioContextRef : bool;
  oscillatorRef : option Oscillator;
  srcObject : bool;
  detectionIntervalRef : bool;
  lastCaptureTimeRef : Z;
  detection : DetectionState;
  error : string;
  capturedFrames : list CapturedFrame;
  sensitivity : Z
}.

Definition CAPTURE_COOLDOWN : Z := 1000.

Definition initialState : AppState := {|
  previousFrameRef := None;
  audioContextRef := false;
  oscillatorRef := None;
  srcObject := false;
  detectionIntervalRef := false;
  lastCaptureTimeRef := 0;
  detection := mkDetection false false false;
  error := "";
  capturedFrames := [];
  sensitivity := 30
|}.

Definition set_previousFrameRef (v : option ImageData) (st : AppState) : AppState :=
  mkApp v (audioContextRef st) (oscillatorRef st) (srcObject st)
        (detectionIntervalRef st) (lastCaptureTimeRef st) (detection st)
        (error st) (capturedFrames st) (sensitivity st).

Definition set_audioContextRef (v : bool) (st : AppState) : AppState :=
  mkApp (previousFrameRef st) v (oscillatorRef st) (srcObject st)
        (detectionIntervalRef st) (lastCaptureTimeRef st) (detection st)
        (error st) (capturedFrames st) (sensitivity st).

Definition set_oscillatorRef (v : option Oscillator) (st : AppState) : AppState :=
  mkApp (previousFrameRef st) (audioContextRef st) v (srcObject st)
        (detectionIntervalRef st) (lastCaptureTimeRef st) (detection st)
        (error st) (capturedFrames st) (sensitivity st).

Definition set_srcObject (v : bool) (st : AppState) : AppState :=
  mkApp (previousFrameRef st) (audioContextRef st) (oscillatorRef st) v
        (detectionIntervalRef st) (lastCaptureTimeRef st) (detection st)
        (error st) (capturedFrames st) (sensitivity st).

Definition set_detectionIntervalRef (v : bool) (st : AppState) : AppState :=
  mkApp (previousFrameRef st) (audioContextRef st) (oscillatorRef st)
        (srcObject st) v (lastCaptureTimeRef st) (detection st)
        (error st) (capturedFrames st) (sensitivity st).

Definition set_lastCaptureTimeRef (v : Z) (st : AppState) : AppState :=
  mkApp (previousFrameRef st) (audioContextRef st) (oscillatorRef st)
        (srcObject st) (detectionIntervalRef st) v (detection st)
        (error st) (capturedFrames st) (sensitivity st).

Definition setDetection (f : DetectionState -> DetectionState) (st : AppState) : AppState :=
  mkApp (previousFrameRef st) (audioContextRef st) (oscillatorRef st)
        (srcObject st) (detectionIntervalRef st) (lastCaptureTimeRef st)
        (f (detection st)) (error st) (capturedFrames st) (sensitivity st).

Definition setError (v : string) (st : AppState) : AppState :=
  mkApp (previousFrameRef st) (audioContextRef st) (oscillatorRef st)
        (srcObject st) (detectionIntervalRef st) (lastCaptureTimeRef st)
        (detection st) v (capturedFrames st) (sensitivity st).

Definition setCapturedFrames (f : list CapturedFrame -> list CapturedFrame)
    (st : AppState) : AppState :=
  mkApp (previousFrameRef st) (audioContextRef st) (oscillatorRef st)
        (srcObject st) (detectionIntervalRef st) (lastCaptureTimeRef st)
        (detection st) (error st) (f (capturedFrames st)) (sensitivity st).

Definition setSensitivity (v : Z) (st : AppState) : AppState :=
  mkApp (previousFrameRef st) (audioContextRef st) (oscillatorRef st)
        (srcObject st) (detectionIntervalRef st) (lastCaptureTimeRef st)
        (detection st) (error st) (capturedFrames st) v.

(** ** Alarm (startAlarm, stopAlarm) *)

(** Seconds are rationals here: [0.2], [0.4] and [0.6] are taken as the
    fractions they denote. *)
Definition alarmGate (now : Q) : list GainEvent :=
  [ mkGainEvent 1 now;
    mkGainEvent 0 (now + (2 # 10))%Q;
    mkGainEvent 1 (now + (4 # 10))%Q;
    mkGainEvent 0 (now + (6 # 10))%Q ].

(** [currentTime] is [audioContext.currentTime] at the call. *)
Definition startAlarm (currentTime : Q) (st : AppState) : AppState :=
  let st := if audioContextRef st then st else set_audioContextRef true st in
  match oscillatorRef st with
  | Some _ => st
  | None =>
      let oscillator :=
        {| osc_type := square; osc_frequency := 440;
           osc_gain := alarmGate currentTime; osc_running := true |} in
      set_oscillatorRef (Some oscillator) st
  end.

Definition stopAlarm (st : AppState) : AppState :=
  match oscillatorRef st with
  | Some _ => set_oscillatorRef None st
  | None => st
  end.



(** ** Camera lifecycle (startCamera, stopCamera, toggleDetection) *)

(** [granted] tells whether [getUserMedia] resolved; the [loadedmetadata]
    callback that follows and the render are folded into the same step
    ([Scheduled.startCamera] and [Scheduled.onloadedmetadata] take them
    apart).  The video element is mounted (line 73). *)
Definition startCamera (granted : bool) (st : AppState) : AppState :=
  if granted then
    let st := set_srcObject true st in
    let st := setDetection (fun prev =>
                mkDetection true (motionDetected prev) (fireDetected prev)) st in
    let st := set_detectionIntervalRef true st in
    setError "" st
  else
    setError "Failed to access camera. Please ensure camera permissions are granted." st.

(** [video] tells whether [videoRef.current] is set: it is while the
    component is mounted, and no longer when the cleanup of the mount
    effect runs.  Without it the guard of line 87 fails and the stream is
    left alone. *)
Definition stopCamera (video : bool) (st : AppState) : AppState :=
  let st := if video && srcObject st then set_srcObject false st else st in
  let st := if detectionIntervalRef st
            then set_detectionIntervalRef false st else st in
  let st := stopAlarm st in
  setDetection (fun prev => mkDetection false false false) st.

Definition toggleDetection (granted : bool) (st : AppState) : AppState :=
  if negb (isActive (detection st)) then startCamera granted st
  else setCapturedFrames (fun _ => []) (stopCamera true st).

(** ** One detection tick (captureFrame, detectMotion) *)

(** What the browser supplies to one run of the interval callback. *)
Record TickEnv := mkTickEnv {
  refsAttached : bool;        (* videoRef.current and canvasRef.current *)
  videoWidth : Z;
  videoHeight : Z;
  context2d : bool;           (* canvas.getContext('2d') is not null *)
  frameData : list Z;         (* getImageData(...).data *)
  encoded : string;           (* canvas.toDataURL('image/webp', 1.0) *)
  audioTime : Q;              (* audioContext.currentTime *)
  now_check : Z;              (* Date.now() of line 173 *)
  now_entry : Z;              (* Date.now() of line 178, read when the
                                 updater of line 176 runs *)
  now_stamp : Z               (* Date.now() of line 180 *)
}.

(** The guard [!video || !canvas || !video.videoWidth || !video.videoHeight]. *)
Definition noVideo (env : TickEnv) : bool :=
  negb (refsAttached env) || (videoWidth env =? 0) || (videoHeight env =? 0).

Definition captureFrame (env : TickEnv) : option string :=
  if noVideo env then None
  else if negb (context2d env) then None
  else Some (encoded env).

(** A string is truthy unless it is empty. *)
Definition truthy (s : string) : bool :=
  match s with EmptyString => false | _ => true end.

(** The updater of lines 149-153, alarm calls included, as it runs at the
    render that follows the tick. *)
Definition updateFire (env : TickEnv) (fire : bool) (st : AppState) : AppState :=
  let prev := detection st in
  let st :=
    if fire && negb (fireDetected prev) then startAlarm (audioTime env) st
    else if negb fire && fireDetected prev then stopAlarm st
    else st in
  setDetection (fun prev => mkDetection (isActive prev) (motionDetected prev) fire) st.

(** Lines 173-182. *)
Definition captureStep (env : TickEnv) (motion fire : bool) (st : AppState) : AppState :=
  if (motion || fire) &&
     (CAPTURE_COOLDOWN <? now_check env - lastCaptureTimeRef st) then
    match captureFrame env with
    | Some frameDataUrl =>
        if truthy frameDataUrl then
          let st := setCapturedFrames (fun prev =>
                      prev ++ [mkCaptured frameDataUrl (now_entry env)]) st in
          set_lastCaptureTimeRef (now_stamp env) st
        else st
    | None => st
    end
  else st.

(** [context.getImageData(0, 0, canvas.width, canvas.height)], the canvas
    having just been sized to the video and drawn on. *)
Definition getImageData (env : TickEnv) : ImageData :=
  mkImageData (videoWidth env) (videoHeight env) (frameData env).

(** One run of the interval callback together with the render that
    follows it.  The sensitivity is the one of the state: the callback
    itself holds the one of the render that started monitoring, which is
    the same as long as the slider is left alone
    ([Scheduled.detectMotion] takes it as an argument). *)
Definition detectMotion (env : TickEnv) (st : AppState) : AppState :=
  if noVideo env then st
  else if negb (context2d env) then st
  else
    let currentFrame := getImageData env in
    let fire := detectFire currentFrame in
    let st := updateFire env fire st in
    let st :=
      match previousFrameRef st with
      | Some previousFrame =>
          let motion := motionHeuristic currentFrame previousFrame (sensitivity st) in
          let st := setDetection (fun prev =>
                      mkDetection (isActive prev) motion (fireDetected prev)) st in
          captureStep env motion fire st
      | None => st
      end in
    set_previousFrameRef (Some currentFrame) st.

(** The tick ran past its two guards. *)
Definition sampled (env : TickEnv) : bool :=
  negb (noVideo env || negb (context2d env)).

(** ** Sessions: the handlers as run by the browser, each with its render *)

Inductive Event :=
| Toggle (granted : bool)       (* click on the start/stop button *)
| Tick (env : TickEnv)          (* the 100 ms interval fires *)
| Slider (v : Z).               (* the sensitivity slider moves *)

Definition handle (ev : Event) (st : AppState) : AppState :=
  match ev with
  | Toggle granted => toggleDetection granted st
  | Tick env => if detectionIntervalRef st then detectMotion env st else st
  | Slider v => setSensitivity v st
  end.

Definition run (evs : list Event) (st : AppState) : AppState :=
  fold_left (fun s ev => handle ev s) evs st.

(** The clock never runs backwards: the readings the interval callback
    makes itself (lines 173 and 180) are each at least the one before, within
    a tick and from one tick to the next.  The reading of line 178 is made
    by the updater, later: [renderedWithin] is about it. *)
Fixpoint clock_ok (t : Z) (evs : list Event) : Prop :=
  match evs with
  | [] => True
  | Tick env :: rest =>
      t <= now_check env /\ now_check env <= now_stamp env /\
      clock_ok (now_stamp env) rest
  | _ :: rest => clock_ok t rest
  end.

(** Within each tick line 180 reads the clock no earlier than line 173
    did, and the updater of line 176 reads it after line 180 has, no more
    than [d] ms later. *)
Definition renderedWithin (d : Z) (evs : list Event) : Prop :=
  Forall (fun ev => match ev with
                    | Tick env => now_check env <= now_stamp env /\
                                  now_stamp env <= now_entry env <= now_stamp env + d
                    | _ => True
                    end) evs.

(** ** Timelapse assembler (createTimelapse, drawNextFrame) *)

Inductive Effect :=
| CanvasSize (w h : Z)
| RecorderStart
| ClearAndDraw (url : string)
| LogFrameFailed (frame : nat)
| LogFirstFrameFailed
| RecorderStop
| Download (stamp : Z).         (* timelapse-<stamp>.webm, a.click() *)

Record AssemblyEnv := mkAssemblyEnv {
  ctx : bool;                             (* getContext('2d') is not null *)
  decode : string -> option (Z * Z);      (* size of the image when it loads *)
  stop_time : Z                           (* Date.now() in onstop *)
}.

(** The closure state of one assembly: the frame counter, what has been
    done so far, and whether a [setTimeout(drawNextFrame, ...)] is pending. *)
Record Assembly := mkAssembly {
  currentFrame : nat;
  trace : list Effect;
  pending : bool
}.

(** One run of [drawNextFrame], up to and including the load or error
    callback of the image it requests. *)
Definition drawNextFrame (env : AssemblyEnv) (frames : list CapturedFrame)
    (a : Assembly) : Assembly :=
  if (length frames <=? currentFrame a)%nat then
    mkAssembly (currentFrame a)
               (trace a ++ [RecorderStop; Download (stop_time env)]) false
  else
    match frames !! currentFrame a with
    | Some f =>
        match decode env (dataUrl f) with
        | Some _ =>
            mkAssembly (S (currentFrame a))
                       (trace a ++ [ClearAndDraw (dataUrl f)]) true
        | None =>
            mkAssembly (S (currentFrame a))
                       (trace a ++ [LogFrameFailed (currentFrame a)]) true
        end
    | None => mkAssembly (currentFrame a) (trace a) false
    end.

(** The timer queue: run the pending callback, if any, [fuel] times. *)
Fixpoint timers (fuel : nat) (env : AssemblyEnv) (frames : list CapturedFrame)
    (a : Assembly) : Assembly :=
  match fuel with
  | O => a
  | S fuel' =>
      if pending a then timers fuel' env frames (drawNextFrame env frames a)
      else a
  end.

(** [createTimelapse] followed by [fuel] timer callbacks: the new state,
    the effects performed and whether a callback is still pending. *)
Definition createTimelapse (fuel : nat) (env : AssemblyEnv) (st : AppState)
    : AppState * Assembly :=
  let frames := capturedFrames st in
  if (length frames <? 2)%nat then
    (setError "Not enough frames captured for timelapse" st,
     mkAssembly 0 [] false)
  else if negb (ctx env) then (st, mkAssembly 0 [] false)
  else
    match frames !! 0%nat with
    | Some first =>
        match decode env (dataUrl first) with
        | Some (w, h) =>
            (st, timers fuel env frames
                   (mkAssembly 0 [CanvasSize w h; RecorderStart] true))
        | None => (st, mkAssembly 0 [LogFirstFrameFailed] false)
        end
    | None => (st, mkAssembly 0 [] false)
    end.

Definition isDownload (e : Effect) : bool :=
  match e with Download _ => true | _ => false end.

Definition downloads (t : list Effect) : nat :=
  length (List.filter isDownload t).

(** ** Specification-level notions *)

(** Number of pixel positions [p < n] that satisfy [P]. *)
Definition countPixels (P : nat -> bool) (n : nat) : Z :=
  Z.of_nat (length (List.filter P (seq 0 n))).

Definition totalPixelCount (img : ImageData) : Z := width img * height img.

(** Pixel [p] is fire-coloured: red > 200, green < 140, blue < 40. *)
Definition isFirePixel (d : list Z) (p : nat) : bool :=
  match d !! (4 * p)%nat, d !! (4 * p + 1)%nat, d !! (4 * p + 2)%nat with
  | Some r, Some g, Some b => (200 <? r) && (g <? 140) && (b <? 40)
  | _, _, _ => false
  end.

Definition fireColoredCount (img : ImageData) : Z :=
  countPixels (isFirePixel (data img)) (Z.to_nat (totalPixelCount img)).

(** Pixel [p] changed: |dR| + |dG| + |dB| > 100, alpha left out. *)
Definition isChangedPixel (cur prev : list Z) (p : nat) : bool :=
  match cur !! (4 * p)%nat, cur !! (4 * p + 1)%nat, cur !! (4 * p + 2)%nat,
        prev !! (4 * p)%nat, prev !! (4 * p + 1)%nat, prev !! (4 * p + 2)%nat with
  | Some r, Some g, Some b, Some r', Some g', Some b' =>
      100 <? Z.abs (r - r') + Z.abs (g - g') + Z.abs (b - b')
  | _, _, _, _, _, _ => false
  end.

Definition changedCount (cur prev : ImageData) : Z :=
  countPixels (isChangedPixel (data cur) (data prev))
              (Z.to_nat (totalPixelCount cur)).

(** [count] out of [total], as an exact percentage: the fraction
    [100 * count / total]. *)
Definition percentOf (count total : Z) : Q := (100 * count) # (Z.to_pos total).

(** [(100 - sensitivity) / 3] as an exact fraction. *)
Definition exactThreshold (sensitivity : Z) : Q := (100 - sensitivity) # 3.

Definition sameDimensions (a b : ImageData) : Prop :=
  width a = width b /\ height a = height b.

(** A buffer whose pixels all carry the same colour. *)
Definition uniformImage (w h r g b a : Z) : ImageData :=
  mkImageData w h (concat (replicate (Z.to_nat (w * h)) [r; g; b; a])).

(** Any two entries of the store lie at least [gap] ms apart. *)
Definition spaced (gap : Z) (frames : list CapturedFrame) : Prop :=
  forall (i j : nat) (f g : CapturedFrame),
    (i < j)%nat -> frames !! i = Some f -> frames !! j = Some g ->
    gap <= timestamp g - timestamp f.


(** What the assembler does with frame number [i]. *)
Definition frameEffect (env : AssemblyEnv) (i : nat) (f : CapturedFrame) : Effect :=
  match decode env (dataUrl f) with
  | Some _ => ClearAndDraw (dataUrl f)
  | None => LogFrameFailed i
  end.

(** Every tick of [evs] reads the clock no later than [deadline]. *)
Definition ticksBefore (deadline : Z) (evs : list Event) : Prop :=
  Forall (fun ev => match ev with
                    | Tick env => now_check env <= deadline
                    | _ => True
                    end) evs.

(** Some pixel position carries different colour samples in the two
    buffers. *)
Definition someDifference (cur prev : ImageData) : Prop :=
  exists (p : nat) (j : nat),
    (p < Z.to_nat (totalPixelCount cur))%nat /\ (j < 3)%nat /\
    data cur !! (4 * p + j)%nat <> data prev !! (4 * p + j)%nat.

(** [wf_image], computed. *)
Definition wf_imageb (img : ImageData) : bool :=
  (0 <? width img) && (0 <? height img) &&
  (length (data img) =? Z.to_nat (4 * (width img * height img)))%nat &&
  forallb (fun v => (0 <=? v) && (v <=? 255)) (data img).

(** No previous frame, no motion flag. *)
Definition motionNeedsPrevious (st : AppState) : Prop :=
  previousFrameRef st = None -> motionDetected (detection st) = false.

(** What holds of the store when updaters run within [d] ms: no entry is
    dated more than [d] ms after the last stamped capture time, and any two
    are more than [CAPTURE_COOLDOWN - d] ms apart. *)
Definition storeInv (d : Z) (st : AppState) : Prop :=
  Forall (fun f => timestamp f <= lastCaptureTimeRef st + d) (capturedFrames st) /\
  spaced (CAPTURE_COOLDOWN + 1 - d) (capturedFrames st).

(** ** Rounding to nearest, ties to even, on integers *)

(** [a / b] rounded to the nearest integer, ties to the even one. *)
Definition RNEZ (a b : Z) : Z :=
  let q := a / b in
  match 2 * (a mod b) ?= b with
  | Lt => q
  | Gt => q + 1
  | Eq => if Z.even q then q else q + 1
  end.

(** The shift record [mrs] describes [a / b]: its mantissa is the integer
    part and its two flags place the remainder against one half. *)
Definition located (a b : Z) (mrs : shr_record) : Prop :=
  0 < b /\ 0 <= shr_m mrs /\
  0 <= a - b * shr_m mrs < b /\
  (shr_r mrs = true <-> b <= 2 * (a - b * shr_m mrs)) /\
  (shr_s mrs = true <-> (a - b * shr_m mrs <> 0 /\ 2 * (a - b * shr_m mrs) <> b)).

(** A positive double with mantissa [M] and exponent [E]. *)
Definition fin53 (M E : Z) : spec_float := S754_finite false (Z.to_pos M) E.

(** The same after a rounding that may have carried into the 54th bit. *)
Definition normal (M E : Z) : spec_float :=
  if M =? 2 ^ 53 then S754_finite false (Z.to_pos (2 ^ 52)) (E + 1)
  else S754_finite false (Z.to_pos M) E.

(** The threshold at [s] is zero (at 100) or a canonical double within
    half a unit in the last place of [(100 - s) / 3]. *)
Definition thresholdOK (s : Z) : bool :=
  match motionThreshold s with
  | S754_zero false => s =? 100
  | S754_finite false m e =>
      (2 ^ 52 <=? Z.pos m) && (Z.pos m <? 2 ^ 53) && (-60 <=? e) && (e <=? -47) &&
      (2 * Z.abs (3 * Z.pos m - (100 - s) * 2 ^ (- e)) <=? 3) && (s <? 100)
  | _ => false
  end.

(** Buffers are taken to hold fewer than 2^40 pixels (browsers stop far
    below). *)
Definition maxPixels : Z := 2 ^ 40.

(** What the motion comparison yields when the exact percentage equals
    the exact threshold [(100 - s) / 3]: the outcome on the ratio
    [(100 - s) / 300] itself. *)
Definition motionAtBoundary (s : Z) : bool :=
  Number.gt (diffPercentage (100 - s) 300) (motionThreshold s).

(** The sensitivities at which rounding tips that comparison to true. *)
Definition tippedSensitivities : list Z :=
  [6; 9; 16; 24; 27; 36; 48; 53; 58; 62; 68; 74; 79; 81; 84; 87; 92; 96; 98; 99].

(** ** Further notions used below *)

(** The cleanup of the mount effect (lines 265-270): [stopCamera] then
    [stopAlarm].  React runs it at unmount, when it has already cleared
    [videoRef.current] ([video] is [false]). *)
Definition cleanup (video : bool) (st : AppState) : AppState :=
  stopAlarm (stopCamera video st).

(** Two sample arrays that agree on the red, green and blue sample of
    every pixel (and in length): only alpha may differ. *)
Definition sameColours (d d' : list Z) : Prop :=
  length d = length d' /\
  forall p j : nat, (j < 3)%nat -> d !! (4 * p + j)%nat = d' !! (4 * p + j)%nat.

(** The alarm is sounding. *)
Definition sounding (st : AppState) : bool :=
  match oscillatorRef st with Some _ => true | None => false end.

(** What holds of the store of a session whose clock started at [t0]:
    [n] frames took [(n - 1) * CAPTURE_COOLDOWN] ms to capture. *)
Definition rateInv (t0 : Z) (st : AppState) : Prop :=
  capturedFrames st = [] \/
  t0 + (Z.of_nat (length (capturedFrames st)) - 1) * CAPTURE_COOLDOWN
    <= lastCaptureTimeRef st.

(** Every tick of [evs] has finished reading the clock by [T]. *)
Definition clockUpTo (T : Z) (evs : list Event) : Prop :=
  Forall (fun ev => match ev with
                    | Tick env => now_stamp env <= T
                    | _ => True
                    end) evs.

(** The frames a trace draws, and the frame numbers it logs as failed. *)
Definition drawn (t : list Effect) : list string :=
  flat_map (fun e => match e with ClearAndDraw url => [url] | _ => [] end) t.

Definition logged (t : list Effect) : list nat :=
  flat_map (fun e => match e with LogFrameFailed i => [i] | _ => [] end) t.

(** The image behind [url] loads. *)
Definition decodes (env : AssemblyEnv) (url : string) : bool :=
  match decode env url with Some _ => true | None => false end.

(** A session in front of a still scene: every tick samples the same
    [w] x [h] frame [d], and the slider stays within its range. *)
Definition stillScene (w h : Z) (d : list Z) (evs : list Event) : Prop :=
  Forall (fun ev => match ev with
                    | Tick env => getImageData env = mkImageData w h d
                    | Slider v => 0 <= v <= 100
                    | Toggle _ => True
                    end) evs.

(** Nothing was detected, nothing is sounding, nothing is stored, and the
    previous frame, if any, is the still one. *)
Definition stillInv (d : list Z) (st : AppState) : Prop :=
  capturedFrames st = [] /\
  motionDetected (detection st) = false /\
  fireDetected (detection st) = false /\
  oscillatorRef st = None /\
  0 <= sensitivity st <= 100 /\
  (forall prev, previousFrameRef st = Some prev -> data prev = d).

(** * React's scheduling of state updates

    A set-function of a state hook does not change the state: it hands an
    update to React, which runs it when the component next renders.  Refs
    and the DOM change at once.  Here every handler changes the refs and
    queues its updates, and a render is a step of its own that runs the
    queue in order. *)

(** An update handed to React. *)
Inductive Update :=
| FireUpdate (fire : bool)              (* lines 149-153, still to run *)
| FireComputed (fire : bool)            (* lines 149-153, run when handed over *)
| MotionUpdate (motion : bool)          (* line 171 *)
| AppendFrame (frameDataUrl : string)   (* lines 176-179 *)
| Activate                              (* line 76 *)
| Deactivate                            (* line 97 *)
| ClearFrames                           (* line 261 *)
| ErrorText (v : string)                (* lines 80, 82 and 190 *)
| SensitivityValue (v : Z).             (* line 387 *)

(** What the [k]-th update of a render reads when it runs. *)
Record RenderEnv := mkRenderEnv {
  render_audioTime : nat -> Q;          (* audioContext.currentTime *)
  render_now : nat -> Z                 (* Date.now() of line 178 *)
}.

(** The alarm calls of the updater of lines 149-153. *)
Definition alarmEffect (currentTime : Q) (fire : bool) (st : AppState) : AppState :=
  if fire && negb (fireDetected (detection st)) then startAlarm currentTime st
  else if negb fire && fireDetected (detection st) then stopAlarm st
  else st.

(** One update, run on the state left by the updates before it. *)
Definition applyUpdate (currentTime : Q) (now : Z) (u : Update) (st : AppState)
    : AppState :=
  match u with
  | FireUpdate fire =>
      setDetection (fun prev => mkDetection (isActive prev) (motionDetected prev) fire)
                   (alarmEffect currentTime fire st)
  | FireComputed fire =>
      setDetection (fun prev => mkDetection (isActive prev) (motionDetected prev) fire) st
  | MotionUpdate motion =>
      setDetection (fun prev => mkDetection (isActive prev) motion (fireDetected prev)) st
  | AppendFrame frameDataUrl =>
      setCapturedFrames (fun prev => prev ++ [mkCaptured frameDataUrl now]) st
  | Activate =>
      setDetection (fun prev => mkDetection true (motionDetected prev) (fireDetected prev)) st
  | Deactivate => setDetection (fun prev => mkDetection false false false) st
  | ClearFrames => setCapturedFrames (fun _ => []) st
  | ErrorText v => setError v st
  | SensitivityValue v => setSensitivity v st
  end.

(** The updates [q] run in order, the first being the [k]-th of the render. *)
Fixpoint renderFrom (r : RenderEnv) (k : nat) (q : list Update) (st : AppState)
    : AppState :=
  match q with
  | [] => st
  | u :: q' =>
      renderFrom r (S k) q'
        (applyUpdate (render_audioTime r k) (render_now r k) u st)
  end.

Definition render (r : RenderEnv) (q : list Update) (st : AppState) : AppState :=
  renderFrom r 0 q st.

(** The mounted component: refs, DOM and the state of the last render, and
    the updates handed to React since. *)
Record Component := mkComponent {
  appState : AppState;
  queue : list Update
}.

Definition atRest (st : AppState) : Component := mkComponent st [].

Definition enqueue (us : list Update) (c : Component) : Component :=
  mkComponent (appState c) (queue c ++ us).

Module Scheduled.

(** Lines 86-98.  The stream, the interval and the alarm are dealt with at
    once; the state update waits for the render. *)
Definition stopCamera (video : bool) (c : Component) : Component :=
  let st := appState c in
  let st := if video && srcObject st then set_srcObject false st else st in
  let st := if detectionIntervalRef st
            then set_detectionIntervalRef false st else st in
  let st := stopAlarm st in
  mkComponent st (queue c ++ [Deactivate]).

(** Lines 73-83: what [startCamera] does once [getUserMedia] has settled,
    the video element being mounted. *)
Definition startCamera (granted : bool) (c : Component) : Component :=
  if granted then
    mkComponent (set_srcObject true (appState c)) (queue c ++ [ErrorText ""])
  else
    enqueue [ErrorText "Failed to access camera. Please ensure camera permissions are granted."] c.

(** Lines 76-77: the callback installed by [startCamera]. *)
Definition onloadedmetadata (c : Component) : Component :=
  mkComponent (set_detectionIntervalRef true (appState c)) (queue c ++ [Activate]).

(** Lines 256-263.  [detection.isActive] is read from the last render.
    When it is false [startCamera] is called, which does nothing before
    [getUserMedia] settles. *)
Definition toggleDetection (c : Component) : Component :=
  if negb (isActive (detection (appState c))) then c
  else enqueue [ClearFrames] (stopCamera true c).

(** Lines 173-182, the update of line 176 queued. *)
Definition captureStep (env : TickEnv) (motion fire : bool) (c : Component)
    : Component :=
  if (motion || fire) &&
     (CAPTURE_COOLDOWN <? now_check env - lastCaptureTimeRef (appState c)) then
    match captureFrame env with
    | Some frameDataUrl =>
        if truthy frameDataUrl then
          let c := enqueue [AppendFrame frameDataUrl] c in
          mkComponent (set_lastCaptureTimeRef (now_stamp env) (appState c)) (queue c)
        else c
    | None => c
    end
  else c.

(** Lines 134-186.  [sensitivity] is the one the callback closed over.
    With nothing queued React may run the updater of line 149 as soon as
    it is handed over ([eager]); the state it computes still waits for the
    render. *)
Definition detectMotion (env : TickEnv) (sensitivity : Z) (eager : bool)
    (c : Component) : Component :=
  if noVideo env then c
  else if negb (context2d env) then c
  else
    let currentFrame := getImageData env in
    let fire := detectFire currentFrame in
    let c :=
      match queue c with
      | [] =>
          if eager then
            mkComponent (alarmEffect (audioTime env) fire (appState c)) [FireComputed fire]
          else enqueue [FireUpdate fire] c
      | _ :: _ => enqueue [FireUpdate fire] c
      end in
    let c :=
      match previousFrameRef (appState c) with
      | Some previousFrame =>
          let motion := motionHeuristic currentFrame previousFrame sensitivity in
          let c := enqueue [MotionUpdate motion] c in
          captureStep env motion fire c
      | None => c
      end in
    mkComponent (set_previousFrameRef (Some currentFrame) (appState c)) (queue c).

(** Lines 188-192: the guard of [createTimelapse]; past it the assembly
    works on its own canvas and leaves the component alone. *)
Definition createTimelapse (c : Component) : Component :=
  if (length (capturedFrames (appState c)) <? 2)%nat then
    enqueue [ErrorText "Not enough frames captured for timelapse"] c
  else c.

(** What happens to the mounted component, one step at a time. *)
Inductive Step :=
| Click                                 (* the monitoring button *)
| Settled (granted : bool)              (* getUserMedia resolves or rejects *)
| LoadedMetadata                        (* the video has its metadata *)
| Interval (env : TickEnv) (sensitivity : Z) (eager : bool)
| Slide (v : Z)                         (* the sensitivity slider *)
| TimelapseClick                        (* the timelapse button *)
| Render (r : RenderEnv).               (* React renders the component *)

Definition step (s : Step) (c : Component) : Component :=
  match s with
  | Click => toggleDetection c
  | Settled granted => startCamera granted c
  | LoadedMetadata => onloadedmetadata c
  | Interval env sensitivity eager => detectMotion env sensitivity eager c
  | Slide v => enqueue [SensitivityValue v] c
  | TimelapseClick => createTimelapse c
  | Render r => atRest (render r (queue c) (appState c))
  end.

Definition run (steps : list Step) (c : Component) : Component :=
  fold_left (fun c s => step s c) steps c.

(** No click on the button of an active session comes while updates are
    waiting for a render. *)
Fixpoint calmStops (c : Component) (steps : list Step) : Prop :=
  match steps with
  | [] => True
  | s :: rest =>
      match s with
      | Click => isActive (detection (appState c)) = true -> queue c = []
      | _ => True
      end /\ calmStops (step s c) rest
  end.




End Scheduled.

(** The oscillator exists exactly when [fireDetected] is set. *)
Definition alarmOk (st : AppState) : Prop :=
  sounding st = fireDetected (detection st).

(** The updates that leave [alarmOk] as it is, whatever the state. *)
Definition quiet (u : Update) : bool :=
  match u with
  | FireComputed _ | Deactivate => false
  | _ => true
  end.

(** [alarmOk] holds once the queue has run, whenever that is. *)
Definition settledOk (c : Component) : Prop :=
  forall (r : RenderEnv) (k : nat), alarmOk (renderFrom r k (queue c) (appState c)).

(** ** Concrete inputs used in examples *)

Definition oneFrame : AppState :=
  setCapturedFrames (fun _ => [mkCaptured "data:image/webp;base64,UklGRg" 1700000000000])
                    initialState.

Definition brokenUrl : string := "data:image/webp;base64,".

Definition brokenFirst : AppState :=
  setCapturedFrames (fun _ => [mkCaptured brokenUrl 1700000000000;
                               mkCaptured "data:image/webp;base64,UklGRg" 1700000001500])
                    initialState.

Definition brokenLast : AppState :=
  setCapturedFrames (fun _ => [mkCaptured "data:image/webp;base64,UklGRg" 1700000000000;
                               mkCaptured brokenUrl 1700000001500])
                    initialState.

Definition decodeEnv : AssemblyEnv :=
  mkAssemblyEnv true
    (fun url => if String.eqb url brokenUrl then None else Some (640, 480))
    1700000009000.


Definition sampleUrl : string := "data:image/webp;base64,UklGRg".

(** A tick that samples a [w] x [h] frame with samples [px] at time [t]. *)
Definition tickAt (w h : Z) (px : list Z) (t : Z) : TickEnv :=
  mkTickEnv true w h true px sampleUrl 0 t t t.

(** One flame-coloured pixel, one black pixel, one white pixel. *)
Definition flame : list Z := [255; 80; 0; 255].
Definition black : list Z := [0; 0; 0; 255].
Definition white : list Z := [255; 255; 255; 255].

(** A session: start, then flame-coloured frames at 0, 100, 600, 1100 and
    1200 ms after 1700000000000. *)
Definition flameSession : list Event :=
  [ Toggle true;
    Tick (tickAt 1 1 flame 1700000000000);
    Tick (tickAt 1 1 flame 1700000000100);
    Tick (tickAt 1 1 flame 1700000000600);
    Tick (tickAt 1 1 flame 1700000001100);
    Tick (tickAt 1 1 flame 1700000001200) ].

(** A running session whose last capture was stamped at 1700000000100. *)
Definition afterCapture : AppState :=
  run [Toggle true;
       Tick (tickAt 1 1 flame 1700000000000);
       Tick (tickAt 1 1 flame 1700000000100)] initialState.

(** Restart 300 ms after that capture, then two flame-coloured frames. *)
Definition quickRestart : list Event :=
  [ Toggle true;
    Tick (tickAt 1 1 flame 1700000000500);
    Tick (tickAt 1 1 flame 1700000001100) ].

(** A [w] x [h] buffer whose first [k] pixels have colour [first] and the
    others colour [rest]. *)
Definition twoTone (w h : Z) (k : nat) (first rest : list Z) : ImageData :=
  mkImageData w h
    (concat (replicate k first ++ replicate (Z.to_nat (w * h) - k) rest)).

Definition dim : list Z := [10; 0; 0; 255].

(** 10 x 10 buffers: all black; seven white pixels; a single flame. *)
Definition blackFrame : ImageData := uniformImage 10 10 0 0 0 255.
Definition sevenWhite : ImageData := twoTone 10 10 7 white black.
Definition oneFlame : ImageData := twoTone 10 10 1 flame black.

(** One flame-coloured pixel, opaque and transparent. *)
Definition opaqueFlame : ImageData := uniformImage 1 1 255 80 0 255.
Definition clearFlame : ImageData := uniformImage 1 1 255 80 0 0.

(** A session in front of a black wall. *)
Definition blackWall : list Event :=
  [ Toggle true;
    Tick (tickAt 1 1 black 1700000000000);
    Slider 100;
    Tick (tickAt 1 1 black 1700000002000);
    Tick (tickAt 1 1 black 1700000004000) ].

(** A tick that samples a flame-coloured pixel, reads the clock at [t] on
    lines 173 and 180, and whose updater reads it [late] ms later. *)
Definition tickRendered (t late : Z) : TickEnv :=
  mkTickEnv true 1 1 true flame sampleUrl 0 t (t + late) t.

(** A session whose first capture is dated 5 ms after it was stamped. *)
Definition lateUpdater : list Event :=
  [ Toggle true;
    Tick (tickRendered 1700000000000 0);
    Tick (tickRendered 1700000000100 5);
    Tick (tickRendered 1700000001101 0) ].

(** The component with monitoring running and nothing detected yet. *)
Definition monitoring : AppState := run [Toggle true] initialState.

Definition renderAt (t : Z) : RenderEnv := mkRenderEnv (fun _ => 0%Q) (fun _ => t).

(** Start, then a frame with fire and its render. *)
Definition fireSeen : list Scheduled.Step :=
  [ Scheduled.Click; Scheduled.Settled true; Scheduled.LoadedMetadata;
    Scheduled.Render (renderAt 1700000000000);
    Scheduled.Interval (tickAt 1 1 flame 1700000000000) 30 false;
    Scheduled.Render (renderAt 1700000000001) ].

(** ** Notations and tactics *)

(** The operations of [Number], spelled out. *)
Local Abbreviation of_Z z := (binary_normalize 53 1024 z 0 false) (only parsing).
Local Abbreviation percentage k n :=
  (SFmul 53 1024 (SFdiv 53 1024 (of_Z k) (of_Z n)) (of_Z 100)) (only parsing).

(** Replace the closed powers of two by their values. *)
Ltac eval_pows :=
  repeat match goal with
  | |- context [Z.pow 2 ?k] =>
      let v := eval vm_compute in (Z.pow 2 k) in
      lazymatch v with Z.pos _ => change (Z.pow 2 k) with v end
  | H : context [Z.pow 2 ?k] |- _ =>
      let v := eval vm_compute in (Z.pow 2 k) in
      lazymatch v with Z.pos _ => change (Z.pow 2 k) with v in H end
  end.

(** The branches of one tick. *)
Ltac tick_cases :=
  unfold detectMotion, sampled;
  destruct (noVideo _); [reflexivity|];
  destruct (negb (context2d _)); [reflexivity|];
  cbn [orb negb];
  destruct (previousFrameRef _); [|reflexivity];
  unfold captureStep;
  destruct (_ && _); [|reflexivity];
  destruct (captureFrame _) as [u|]; [|reflexivity];
  destruct (truthy u); reflexivity.


(** * Binary64 arithmetic on the percentages

    [SpecFloat] computes; the lemmas below say what it computes, for the
    few operations the two heuristics perform: an integer below 2^53 is
    exact, a quotient of two such integers is the exact quotient rounded
    to nearest even, and so is its product with 100. *)

Lemma shr_1_spec m r s :
  0 <= m -> shr_1 (Build_shr_record m r s) = Build_shr_record (m / 2) (Z.odd m) (r || s).
Proof.
  intros Hm. rewrite <- Z.div2_div.
  destruct m as [|p|p]; [reflexivity| |lia].
  destruct p as [p|p|]; reflexivity.
Qed.

Lemma shr_1_located a b mrs : located a b mrs -> located a (2 * b) (shr_1 mrs).
Proof.
  destruct mrs as [m r s]. unfold located. cbn [shr_m shr_r shr_s].
  intros (Hb & Hm & Hrho & Hr & Hs).
  rewrite shr_1_spec by exact Hm. cbn [shr_m shr_r shr_s].
  assert (Hodd : m = 2 * (m / 2) + (if Z.odd m then 1 else 0)).
  { pose proof (Zdiv.Zmod_odd m) as Ho. pose proof (Z.div_mod m 2).
    destruct (Z.odd m); lia. }
  set (h := m / 2) in *. assert (0 <= h) by (subst h; apply Z.div_pos; lia).
  clearbody h. 
  assert (Hbm : b * m = 2 * (b * h) + (if Z.odd m then b else 0)).
  { rewrite Hodd at 1. destruct (Z.odd m); ring. }
  replace (2 * b * h) with (2 * (b * h)) by ring.
  set (bh := b * h) in *. clearbody bh.
  set (bm := b * m) in *. clearbody bm.
  destruct (Z.odd m), r, s; cbn [orb]; intuition (try discriminate; try lia).
Qed.

Lemma pow2_xO (p : positive) : 2 ^ Z.pos p~0 = 2 ^ Z.pos p * 2 ^ Z.pos p.
Proof. rewrite (Pos2Z.inj_xO p). apply Z.pow_twice_r. Qed.

Lemma pow2_xI (p : positive) : 2 ^ Z.pos p~1 = 2 * (2 ^ Z.pos p * 2 ^ Z.pos p).
Proof.
  rewrite (Pos2Z.inj_xI p), Z.pow_add_r, Z.pow_twice_r, Z.pow_1_r by lia. ring.
Qed.

Lemma iter_pos_located a (p : positive) :
  forall b mrs, located a b mrs -> located a (b * 2 ^ Z.pos p) (SpecFloat.iter_pos shr_1 p mrs).
Proof.
  induction p as [p IH|p IH|]; intros b mrs H; cbn [SpecFloat.iter_pos].
  - apply shr_1_located in H. apply IH, IH in H.
    replace (b * 2 ^ Z.pos p~1) with (2 * b * 2 ^ Z.pos p * 2 ^ Z.pos p); [exact H|].
    rewrite pow2_xI. ring.
  - apply IH, IH in H.
    replace (b * 2 ^ Z.pos p~0) with (b * 2 ^ Z.pos p * 2 ^ Z.pos p); [exact H|].
    rewrite pow2_xO. ring.
  - apply shr_1_located in H. rewrite Z.pow_1_r. rewrite Z.mul_comm. exact H.
Qed.

Lemma rne_located a b mrs :
  located a b mrs ->
  round_nearest_even (shr_m mrs) (loc_of_shr_record mrs) = RNEZ a b.
Proof.
  destruct mrs as [m r s]. unfold located. cbn [shr_m shr_r shr_s].
  intros (Hb & Hm & Hrho & Hr & Hs).
  assert (Hq : a / b = m) by (symmetry; apply (Z.div_unique_pos a b m (a - b * m)); lia).
  assert (Hmod : a mod b = a - b * m) by (symmetry; apply (Z.mod_unique_pos a b m); lia).
  unfold RNEZ. rewrite Hq, Hmod.
  set (rho := a - b * m) in *. clearbody rho.
  destruct (Z.compare_spec (2 * rho) b) as [He|Hl|Hg];
    destruct r, s; cbn [loc_of_shr_record round_nearest_even];
    try reflexivity; exfalso; intuition (try discriminate; try lia).
Qed.

Lemma digits2_size (p : positive) : digits2_pos p = Pos.size p.
Proof. induction p; simpl; congruence. Qed.

Lemma Zdigits2_log2 (m : Z) : 0 < m -> Zdigits2 m = Z.log2 m + 1.
Proof.
  destruct m as [|p|p]; try lia. intros _.
  destruct p; simpl; rewrite ?digits2_size; lia.
Qed.

Lemma Zdigits2_bounds (m : Z) :
  0 < m -> 2 ^ (Zdigits2 m - 1) <= m < 2 ^ Zdigits2 m.
Proof.
  intros Hm. rewrite Zdigits2_log2 by exact Hm.
  replace (Z.log2 m + 1 - 1) with (Z.log2 m) by lia.
  apply Z.log2_spec, Hm.
Qed.

Lemma Zdigits2_unique (m d : Z) :
  2 ^ (d - 1) <= m < 2 ^ d -> 0 < d -> Zdigits2 m = d.
Proof.
  intros H Hd. assert (0 < m) by (pose proof (Z.pow_pos_nonneg 2 (d - 1)); lia).
  rewrite Zdigits2_log2 by assumption.
  rewrite (Z.log2_unique m (d - 1)); [lia|lia|].
  replace (Z.succ (d - 1)) with d by lia. exact H.
Qed.

Lemma shr_fexp_eq (mx ex : Z) (lx : location) (n : Z) :
  Zdigits2 mx = 53 + n -> -1074 <= ex + n ->
  shr_fexp 53 1024 mx ex lx = shr (shr_record_of_loc mx lx) ex n.
Proof.
  intros Hd He. unfold shr_fexp, fexp, emin. rewrite Hd. f_equal. lia.
Qed.

Lemma shr_located (a b : Z) (mrs : shr_record) (ex n : Z) :
  0 <= n -> located a b mrs ->
  located a (b * 2 ^ n) (fst (shr mrs ex n)) /\ snd (shr mrs ex n) = ex + n.
Proof.
  intros Hn H. destruct n as [|p|p]; [| |lia]; cbn [shr fst snd].
  - rewrite Z.mul_1_r. split; [exact H|lia].
  - split; [apply iter_pos_located, H|reflexivity].
Qed.

Lemma shr_record_of_loc_m m l : shr_m (shr_record_of_loc m l) = m.
Proof. destruct l as [|[]]; reflexivity. Qed.

(** Rounding a located quantity [a / b], whose integer part [mx] has
    [53 + n] digits, to 53 digits. *)
Lemma round_correct (a b mx ex : Z) (lx : location) (n : Z) :
  located a b (shr_record_of_loc mx lx) ->
  0 < mx -> Zdigits2 mx = 53 + n -> 0 <= n ->
  -1074 <= ex + n < 971 ->
  binary_round_aux 53 1024 false mx ex lx = normal (RNEZ a (b * 2 ^ n)) (ex + n) /\
  2 ^ 52 <= RNEZ a (b * 2 ^ n) <= 2 ^ 53.
Proof.
  intros Hloc Hmx Hd Hn He.
  unfold binary_round_aux. rewrite (shr_fexp_eq mx ex lx n) by lia.
  destruct (shr_located a b _ ex n Hn Hloc) as [Hloc' He'].
  destruct (shr (shr_record_of_loc mx lx) ex n) as [mrs' e'].
  cbn [fst snd] in Hloc', He'. subst e'.
  rewrite (rne_located a (b * 2 ^ n) mrs' Hloc').
  assert (HM : 2 ^ 52 <= RNEZ a (b * 2 ^ n) <= 2 ^ 53).
  { rewrite <- (rne_located a (b * 2 ^ n) mrs' Hloc').
    pose proof (Zdigits2_bounds mx Hmx) as Hb. rewrite Hd in Hb.
    replace (53 + n - 1) with (52 + n) in Hb by lia.
    rewrite !Z.pow_add_r in Hb by lia.
    destruct Hloc as (Hb0 & _ & Hrho & _). rewrite shr_record_of_loc_m in Hrho.
    destruct Hloc' as (HB & Hm' & Hrho' & _).
    set (m' := shr_m mrs') in *. clearbody m'.
    set (P := 2 ^ n) in *. assert (0 < P) by (apply Z.pow_pos_nonneg; lia). clearbody P.
    assert (P * m' <= mx) by nia.
    assert (mx < P * (m' + 1)) by nia.
    assert (2 ^ 52 <= m' < 2 ^ 53) by nia.
    destruct (loc_of_shr_record mrs') as [|[]]; cbn [round_nearest_even];
      try destruct (Z.even m'); lia. }
  split; [|exact HM].
  set (M := RNEZ a (b * 2 ^ n)) in *. clearbody M.
  unfold normal. destruct (Z.eqb_spec M (2 ^ 53)) as [->|Hne].
  - rewrite (shr_fexp_eq (2 ^ 53) (ex + n) loc_Exact 1) by (try reflexivity; lia).
    cbn [shr shr_record_of_loc SpecFloat.iter_pos]. rewrite shr_1_spec by lia.
    cbn [shr_m]. change (2 ^ 53 / 2) with (Z.pos (Z.to_pos (2 ^ 52))).
    cbv iota. destruct (Z.leb_spec (ex + n + 1) (1024 - 53)); [reflexivity|lia].
  - rewrite (shr_fexp_eq M (ex + n) loc_Exact 0);
      [|apply Zdigits2_unique; simpl; lia | lia].
    cbn [shr shr_record_of_loc shr_m].
    destruct M as [|m|m]; try lia. cbv iota.
    destruct (Z.leb_spec (ex + n) (1024 - 53)); [reflexivity|lia].
Qed.

(** ** Properties of [RNEZ] *)

Lemma RNEZ_error (a b : Z) :
  0 < b -> 2 * Z.abs (RNEZ a b * b - a) <= b.
Proof.
  intros Hb. unfold RNEZ.
  pose proof (Z.div_mod a b ltac:(lia)) as Hdm.
  pose proof (Z.mod_pos_bound a b Hb) as Hr.
  set (q := a / b) in *. set (r := a mod b) in *. clearbody q r.
  destruct (Z.compare_spec (2 * r) b); [destruct (Z.even q)| |]; nia.
Qed.

Lemma RNEZ_scale (a b c : Z) :
  0 < b -> 0 < c -> RNEZ (a * c) (b * c) = RNEZ a b.
Proof.
  intros Hb Hc. unfold RNEZ.
  rewrite Z.div_mul_cancel_r by lia.
  rewrite Zmult_mod_distr_r.
  replace (2 * (a mod b * c)) with (2 * (a mod b) * c) by ring.
  rewrite <- (Zmult_compare_compat_r (2 * (a mod b)) b c) by lia.
  reflexivity.
Qed.

Lemma RNEZ_exact (m : Z) : RNEZ m 1 = m.
Proof.
  unfold RNEZ. rewrite Z.mod_1_r, Z.div_1_r. reflexivity.
Qed.

Lemma RNEZ_mono (a a' b : Z) : 0 < b -> a <= a' -> RNEZ a b <= RNEZ a' b.
Proof.
  intros Hb Ha. unfold RNEZ.
  pose proof (Z.div_mod a b ltac:(lia)) as Hdm.
  pose proof (Z.mod_pos_bound a b Hb) as Hr.
  pose proof (Z.div_mod a' b ltac:(lia)) as Hdm'.
  pose proof (Z.mod_pos_bound a' b Hb) as Hr'.
  set (q := a / b) in *. set (r := a mod b) in *.
  set (q' := a' / b) in *. set (r' := a' mod b) in *. clearbody q r q' r'.
  assert (q <= q') by nia.
  destruct (Z.eq_dec q q') as [<-|Hne].
  - destruct (Z.compare_spec (2 * r) b), (Z.compare_spec (2 * r') b);
      try destruct (Z.even q); nia.
  - assert (q + 1 <= q') by lia.
    destruct (Z.compare_spec (2 * r) b), (Z.compare_spec (2 * r') b);
      try destruct (Z.even q); try destruct (Z.even q'); lia.
Qed.

(** ** Locations computed by the division *)

Lemma new_location_located (a b q r : Z) :
  0 < b -> 0 <= q -> a = b * q + r -> 0 <= r < b ->
  located a b (shr_record_of_loc q (new_location b r)).
Proof.
  intros Hb Hq Ha Hr. unfold located.
  rewrite shr_record_of_loc_m.
  replace (a - b * q) with r by lia.
  split; [exact Hb|]. split; [exact Hq|]. split; [exact Hr|].
  unfold new_location, new_location_even, new_location_odd.
  destruct (Z.even b) eqn:Hev.
  - destruct (Z.eqb_spec r 0) as [->|Hr0]; cbn [shr_record_of_loc shr_r shr_s].
    + intuition (try discriminate; try lia).
    + destruct (Z.compare_spec (2 * r) b); cbn [shr_record_of_loc shr_r shr_s];
        intuition (try discriminate; try lia).
  - assert (Hodd : b = 2 * (b / 2) + 1).
    { pose proof (Z.div_mod b 2 ltac:(lia)) as Hdm.
      rewrite Zdiv.Zmod_odd, <- Z.negb_even, Hev in Hdm. exact Hdm. }
    set (c := b / 2) in *. clearbody c.
    destruct (Z.eqb_spec r 0) as [->|Hr0]; cbn [shr_record_of_loc shr_r shr_s].
    + intuition (try discriminate; try lia).
    + destruct (Z.compare_spec (2 * r + 1) b); cbn [shr_record_of_loc shr_r shr_s];
        intuition (try discriminate; try lia).
Qed.

(** ** Canonical doubles *)

Lemma normal_canonical (M E : Z) :
  2 ^ 52 <= M <= 2 ^ 53 ->
  exists M' j, (j = 0 \/ j = 1) /\ normal M E = fin53 M' (E + j) /\
               2 ^ 52 <= M' < 2 ^ 53 /\ M' * 2 ^ j = M.
Proof.
  intros HM. unfold normal. destruct (Z.eqb_spec M (2 ^ 53)) as [->|Hne].
  - exists (2 ^ 52), 1. repeat split; auto; lia.
  - exists M, 0. rewrite Z.add_0_r. repeat split; auto; lia.
Qed.

Lemma located_exact (m : Z) : 0 <= m -> located m 1 (shr_record_of_loc m loc_Exact).
Proof.
  intros Hm. unfold located. cbn [shr_record_of_loc shr_m shr_r shr_s].
  intuition (try discriminate; try lia).
Qed.

Lemma round_exact (m e : Z) :
  2 ^ 52 <= m < 2 ^ 53 -> -1074 <= e < 971 ->
  binary_round_aux 53 1024 false m e loc_Exact = fin53 m e.
Proof.
  intros Hm He.
  destruct (round_correct m 1 m e loc_Exact 0) as [-> _];
    [apply located_exact; lia | lia | apply Zdigits2_unique; simpl; lia | lia | lia |].
  rewrite Z.mul_1_l, Z.pow_0_r, RNEZ_exact, Z.add_0_r.
  unfold normal. destruct (Z.eqb_spec m (2 ^ 53)); [lia|reflexivity].
Qed.

Lemma pos_iter_xO (m d : positive) :
  Z.pos (Pos.iter xO m d) = Z.pos m * 2 ^ Z.pos d.
Proof.
  induction d as [|d IH] using Pos.peano_ind.
  - simpl. lia.
  - rewrite Pos.iter_succ, Pos2Z.inj_xO, IH, Pos2Z.inj_succ, Z.pow_succ_r by lia. ring.
Qed.

(** An integer below 2^53 is a double, exactly. *)
Lemma of_Z_canonical (z : Z) :
  0 < z < 2 ^ 53 ->
  of_Z z = fin53 (z * 2 ^ (53 - Zdigits2 z)) (Zdigits2 z - 53) /\
  1 <= Zdigits2 z <= 53 /\
  2 ^ 52 <= z * 2 ^ (53 - Zdigits2 z) < 2 ^ 53.
Proof.
  intros Hz. pose proof (Zdigits2_bounds z ltac:(lia)) as Hd.
  set (d := Zdigits2 z) in *.
  assert (Hd1 : 1 <= d) by (subst d; destruct z; simpl in *; lia).
  assert (Hd53 : d <= 53).
  { destruct (Z_le_gt_dec d 53) as [|Hgt]; [assumption|].
    assert (2 ^ 53 <= 2 ^ (d - 1)) by (apply Z.pow_le_mono_r; lia). lia. }
  assert (Hrange : 2 ^ 52 <= z * 2 ^ (53 - d) < 2 ^ 53).
  { assert (E1 : 2 ^ 52 = 2 ^ (d - 1) * 2 ^ (53 - d))
      by (rewrite <- Z.pow_add_r by lia; f_equal; lia).
    assert (E2 : 2 ^ 53 = 2 ^ d * 2 ^ (53 - d))
      by (rewrite <- Z.pow_add_r by lia; f_equal; lia).
    assert (0 < 2 ^ (53 - d)) by (apply Z.pow_pos_nonneg; lia).
    rewrite E1, E2.
    split; [apply Z.mul_le_mono_nonneg_r | apply Z.mul_lt_mono_pos_r]; lia. }
  split; [|split; [lia|assumption]].
  destruct z as [|p|p]; try lia.
  unfold of_Z, binary_normalize, binary_round, shl_align, fexp, emin.
  change (Z.pos (digits2_pos p)) with d.
  replace (Z.max (d + 0 - 53) (3 - 1024 - 53) - 0) with (d - 53) by lia.
  replace (Z.max (d + 0 - 53) (3 - 1024 - 53)) with (d - 53) by lia.
  destruct (d - 53) as [|q|q] eqn:Hq; try lia.
  - replace (53 - d) with 0 in * by lia. rewrite Z.mul_1_r in *.
    rewrite round_exact by lia. reflexivity.
  - rewrite round_exact.
    + unfold fin53. rewrite pos_iter_xO.
      replace (53 - d) with (Z.pos q) by lia. reflexivity.
    + rewrite pos_iter_xO. replace (Z.pos q) with (53 - d) by lia. exact Hrange.
    + lia.
Qed.

(** ** Division and multiplication of canonical doubles *)

Lemma div_canonical (m1 e1 m2 e2 : Z) :
  2 ^ 52 <= m1 < 2 ^ 53 -> 2 ^ 52 <= m2 < 2 ^ 53 ->
  -1074 <= e1 - e2 - 53 -> e1 - e2 - 53 + 1 < 971 ->
  exists n, (n = 0 \/ n = 1) /\
    2 ^ (52 + n) * m2 <= m1 * 2 ^ 53 < 2 ^ (53 + n) * m2 /\
    SFdiv 53 1024 (fin53 m1 e1) (fin53 m2 e2) =
      normal (RNEZ (m1 * 2 ^ 53) (m2 * 2 ^ n)) (e1 - e2 - 53 + n) /\
    2 ^ 52 <= RNEZ (m1 * 2 ^ 53) (m2 * 2 ^ n) <= 2 ^ 53.
Proof.
  intros H1 H2 He He'.
  assert (D1 : Zdigits2 m1 = 53) by (apply Zdigits2_unique; simpl; lia).
  assert (D2 : Zdigits2 m2 = 53) by (apply Zdigits2_unique; simpl; lia).
  unfold SFdiv, fin53, SFdiv_core_binary.
  rewrite !Z2Pos.id by lia. rewrite D1, D2. unfold fexp, emin.
  replace (Z.min (Z.max (53 + e1 - (53 + e2) - 53) (3 - 1024 - 53)) (e1 - e2))
    with (e1 - e2 - 53) by lia.
  replace (e1 - e2 - (e1 - e2 - 53)) with 53 by lia. cbv iota.
  rewrite Z.shiftl_mul_pow2 by lia.
  pose proof (Z.div_mod (m1 * 2 ^ 53) m2 ltac:(lia)) as Hdm.
  pose proof (Z.mod_pos_bound (m1 * 2 ^ 53) m2 ltac:(lia)) as Hr.
  unfold Z.div, Z.modulo in Hdm, Hr.
  destruct (Z.div_eucl (m1 * 2 ^ 53) m2) as [q r].
  assert (Hq : 2 ^ 52 <= q < 2 ^ 54) by nia.
  pose proof (Zdigits2_bounds q ltac:(lia)) as Hdq.
  assert (Hn : Zdigits2 q = 53 \/ Zdigits2 q = 54).
  { destruct (Z_lt_ge_dec q (2 ^ 53)).
    - left. apply Zdigits2_unique; simpl; lia.
    - right. apply Zdigits2_unique; simpl; lia. }
  exists (Zdigits2 q - 53).
  split; [lia|].
  assert (Hbr : 2 ^ (52 + (Zdigits2 q - 53)) * m2 <= m1 * 2 ^ 53
                < 2 ^ (53 + (Zdigits2 q - 53)) * m2).
  { replace (52 + (Zdigits2 q - 53)) with (Zdigits2 q - 1) by lia.
    replace (53 + (Zdigits2 q - 53)) with (Zdigits2 q) by lia.
    set (L := 2 ^ (Zdigits2 q - 1)) in *. set (U := 2 ^ Zdigits2 q) in *.
    clearbody L U. nia. }
  split; [exact Hbr|].
  apply (round_correct (m1 * 2 ^ 53) m2 q (e1 - e2 - 53));
    [apply new_location_located; lia | lia | lia | lia | lia].
Qed.

Lemma pow2_le_inv (x y : Z) : 0 <= x -> 0 <= y -> 2 ^ x <= 2 ^ y -> x <= y.
Proof.
  intros Hx Hy H. destruct (Z_le_gt_dec x y) as [|Hgt]; [assumption|].
  assert (2 ^ y < 2 ^ x) by (apply Z.pow_lt_mono_r; lia). lia.
Qed.

(** The quotient of two integers below 2^53, the smaller on top: the
    integer quotient scaled to 53 digits, rounded to nearest even. *)
Lemma div_of_Z (a b : Z) :
  0 < a -> a <= b -> b < 2 ^ 53 ->
  exists x, 52 <= x <= 106 /\
    2 ^ 52 * b <= a * 2 ^ x < 2 ^ 53 * b /\
    SFdiv 53 1024 (of_Z a) (of_Z b) = normal (RNEZ (a * 2 ^ x) b) (- x) /\
    2 ^ 52 <= RNEZ (a * 2 ^ x) b <= 2 ^ 53.
Proof.
  intros Ha Hab Hb.
  destruct (of_Z_canonical a ltac:(lia)) as (-> & Hda & Hma).
  destruct (of_Z_canonical b ltac:(lia)) as (-> & Hdb & Hmb).
  set (da := Zdigits2 a) in *. set (db := Zdigits2 b) in *. clearbody da db.
  destruct (div_canonical (a * 2 ^ (53 - da)) (da - 53) (b * 2 ^ (53 - db)) (db - 53))
    as (n & Hn & Hbr & Heq & HM); [assumption|assumption|lia|lia|].
  set (x := 53 + db - da - n).
  assert (Hx0 : 0 <= x) by (subst x; lia).
  set (c := 2 ^ (53 - db) * 2 ^ n).
  assert (Hc : 0 < c).
  { subst c. apply Z.mul_pos_pos; apply Z.pow_pos_nonneg; lia. }
  assert (HX : 2 ^ (53 - da) * 2 ^ 53 = 2 ^ x * c).
  { subst c x. rewrite <- !Z.pow_add_r by lia. f_equal. lia. }
  assert (Ea : a * 2 ^ (53 - da) * 2 ^ 53 = a * 2 ^ x * c).
  { rewrite <- Z.mul_assoc, HX. ring. }
  assert (Eb : b * 2 ^ (53 - db) * 2 ^ n = b * c) by (subst c; ring).
  assert (Hbr' : 2 ^ 52 * b <= a * 2 ^ x < 2 ^ 53 * b).
  { rewrite Ea in Hbr.
    replace (2 ^ (52 + n) * (b * 2 ^ (53 - db))) with (2 ^ 52 * b * c) in Hbr
      by (subst c; rewrite Z.pow_add_r by lia; ring).
    replace (2 ^ (53 + n) * (b * 2 ^ (53 - db))) with (2 ^ 53 * b * c) in Hbr
      by (subst c; rewrite Z.pow_add_r by lia; ring).
    destruct Hbr as [Hlo Hhi].
    apply Z.mul_le_mono_pos_r in Hlo; [|exact Hc].
    apply Z.mul_lt_mono_pos_r in Hhi; [|exact Hc]. lia. }
  assert (Hx52 : 52 <= x).
  { apply pow2_le_inv; try lia.
    assert (2 ^ 52 * a <= a * 2 ^ x) by nia.
    rewrite (Z.mul_comm a) in H. apply Z.mul_le_mono_pos_r in H; lia. }
  exists x. split; [subst x; lia|]. split; [exact Hbr'|].
  rewrite Ea, Eb in Heq, HM. rewrite RNEZ_scale in Heq, HM by lia.
  split; [|exact HM].
  rewrite Heq. f_equal. subst x. lia.
Qed.

Lemma of_Z_100 : of_Z 100 = fin53 (100 * 2 ^ 46) (-46).
Proof. reflexivity. Qed.

Lemma mul_100 (M E : Z) :
  2 ^ 52 <= M < 2 ^ 53 -> -1000 <= E <= 900 ->
  exists sh, (sh = 4 \/ sh = 5) /\
    2 ^ (52 + sh) <= 25 * M < 2 ^ (53 + sh) /\
    SFmul 53 1024 (fin53 M E) (of_Z 100) =
      normal (RNEZ (25 * M) (2 ^ sh)) (E + 2 + sh) /\
    2 ^ 52 <= RNEZ (25 * M) (2 ^ sh) <= 2 ^ 53.
Proof.
  intros HM HE. rewrite of_Z_100. unfold SFmul, fin53. cbn [xorb].
  rewrite Pos2Z.inj_mul, !Z2Pos.id by (eval_pows; lia).
  assert (Hsh : exists sh, (sh = 4 \/ sh = 5) /\ 2 ^ (52 + sh) <= 25 * M < 2 ^ (53 + sh)).
  { destruct (Z_lt_ge_dec (25 * M) (2 ^ 57)).
    - exists 4. split; [auto|]. eval_pows. lia.
    - exists 5. split; [auto|]. eval_pows. lia. }
  destruct Hsh as (sh & Hsh & Hbr). exists sh. split; [exact Hsh|]. split; [exact Hbr|].
  assert (Hmx : M * (100 * 2 ^ 46) = 25 * M * 2 ^ 48) by (eval_pows; lia).
  assert (Hd : Zdigits2 (M * (100 * 2 ^ 46)) = 53 + (48 + sh)).
  { apply Zdigits2_unique; [|lia]. rewrite Hmx.
    replace (53 + (48 + sh) - 1) with ((52 + sh) + 48) by lia.
    replace (53 + (48 + sh)) with ((53 + sh) + 48) by lia.
    rewrite (Z.pow_add_r 2 (52 + sh) 48), (Z.pow_add_r 2 (53 + sh) 48) by lia.
    split; [apply Z.mul_le_mono_nonneg_r | apply Z.mul_lt_mono_pos_r]; eval_pows; lia. }
  destruct (round_correct (M * (100 * 2 ^ 46)) 1 (M * (100 * 2 ^ 46)) (E + -46)
              loc_Exact (48 + sh)) as [Heq HR];
    [apply located_exact; lia | lia | exact Hd | lia | lia |].
  assert (Hscale : RNEZ (M * (100 * 2 ^ 46)) (1 * 2 ^ (48 + sh)) = RNEZ (25 * M) (2 ^ sh)).
  { rewrite Hmx, Z.mul_1_l, (Z.add_comm 48), Z.pow_add_r by lia.
    apply RNEZ_scale; [apply Z.pow_pos_nonneg|]; lia. }
  rewrite Hscale in Heq, HR. split; [|exact HR].
  rewrite Heq. f_equal. lia.
Qed.

(** Order on canonical doubles with non-positive exponents. *)
Lemma ltb_canonical (m1 x1 m2 x2 : Z) :
  2 ^ 52 <= m1 < 2 ^ 53 -> 2 ^ 52 <= m2 < 2 ^ 53 -> 0 <= x1 -> 0 <= x2 ->
  SFltb (fin53 m1 (- x1)) (fin53 m2 (- x2)) = (m1 * 2 ^ x2 <? m2 * 2 ^ x1).
Proof.
  intros H1 H2 Hx1 Hx2. unfold SFltb, SFcompare, fin53.
  destruct (Z.compare_spec (- x1) (- x2)) as [He|Hl|Hg].
  - assert (x1 = x2) by lia. subst x2.
    change (Pos.compare_cont Eq (Z.to_pos m1) (Z.to_pos m2))
      with (Z.pos (Z.to_pos m1) ?= Z.pos (Z.to_pos m2)).
    rewrite !Z2Pos.id by lia.
    assert (0 < 2 ^ x1) by (apply Z.pow_pos_nonneg; lia).
    destruct (Z.compare_spec m1 m2), (Z.ltb_spec (m1 * 2 ^ x1) (m2 * 2 ^ x1));
      try reflexivity; nia.
  - assert (Hp : 2 * 2 ^ x2 <= 2 ^ x1).
    { rewrite <- Z.pow_succ_r by lia. apply Z.pow_le_mono_r; lia. }
    assert (0 < 2 ^ x2) by (apply Z.pow_pos_nonneg; lia).
    destruct (Z.ltb_spec (m1 * 2 ^ x2) (m2 * 2 ^ x1)); [reflexivity|nia].
  - assert (Hp : 2 * 2 ^ x1 <= 2 ^ x2).
    { rewrite <- Z.pow_succ_r by lia. apply Z.pow_le_mono_r; lia. }
    assert (0 < 2 ^ x1) by (apply Z.pow_pos_nonneg; lia).
    destruct (Z.ltb_spec (m1 * 2 ^ x2) (m2 * 2 ^ x1)); [nia|reflexivity].
Qed.

(** ** The percentage [count / total * 100] *)

Lemma percentage_zero (total : Z) :
  (exists s, percentage 0 total = S754_zero s) \/ percentage 0 total = S754_nan.
Proof.
  change (of_Z 0) with (S754_zero false).
  destruct (of_Z total) as [s|s| |s m e]; simpl; eauto.
Qed.

(** For [1 <= count <= total] the percentage is a canonical double
    [P * 2^(-xp)] within [2 * 2^(-xp)] of the exact value. *)
Lemma percentage_spec (k n : Z) :
  0 < k -> k <= n -> n < 2 ^ 53 ->
  exists P xp, percentage k n = fin53 P (- xp) /\
    2 ^ 52 <= P < 2 ^ 53 /\ 43 <= xp <= 100 /\
    Z.abs (P * n - 100 * k * 2 ^ xp) <= 2 * n.
Proof.
  intros Hk Hkn Hn.
  destruct (div_of_Z k n Hk Hkn Hn) as (x & Hx & Hbr & -> & HM).
  pose proof (RNEZ_error (k * 2 ^ x) n ltac:(lia)) as Herr.
  set (M := RNEZ (k * 2 ^ x) n) in *. clearbody M.
  destruct (normal_canonical M (- x) HM) as (M' & j & Hj & -> & HM' & HMj).
  destruct (mul_100 M' (- x + j) HM' ltac:(lia)) as (sh & Hsh & Hbr2 & -> & HM2).
  pose proof (RNEZ_error (25 * M') (2 ^ sh) ltac:(apply Z.pow_pos_nonneg; lia)) as Herr2.
  set (M2 := RNEZ (25 * M') (2 ^ sh)) in *. clearbody M2.
  destruct (normal_canonical M2 (- x + j + 2 + sh) HM2) as (P & j2 & Hj2 & -> & HP & HPj).
  exists P, (x - j - 2 - sh - j2).
  split; [f_equal; lia|]. split; [exact HP|]. split; [lia|].
  set (xp := x - j - 2 - sh - j2).
  assert (HX : 2 ^ x = 2 ^ xp * (4 * 2 ^ j * 2 ^ sh * 2 ^ j2)).
  { subst xp. replace 4 with (2 ^ 2) by reflexivity.
    rewrite <- !Z.pow_add_r by lia. f_equal. lia. }
  rewrite HX in Herr. set (Xp := 2 ^ xp) in *.
  assert (0 < Xp) by (subst Xp xp; apply Z.pow_pos_nonneg; lia). clearbody Xp.
  clear HX Hbr Hbr2. subst M M2.
  assert (Hcases : (j = 0 \/ j = 1) /\ (sh = 4 \/ sh = 5) /\ (j2 = 0 \/ j2 = 1)) by auto.
  destruct Hcases as ([-> | ->] & [-> | ->] & [-> | ->]); eval_pows; nia.
Qed.

Lemma thresholds_checked :
  forallb (fun k => thresholdOK (Z.of_nat k)) (seq 0 101) = true.
Proof. vm_compute. reflexivity. Qed.

Lemma thresholdOK_all (s : Z) : 0 <= s <= 100 -> thresholdOK s = true.
Proof.
  intros Hs. pose proof thresholds_checked as H.
  rewrite forallb_forall in H.
  specialize (H (Z.to_nat s)). rewrite Z2Nat.id in H by lia.
  apply H, in_seq. lia.
Qed.

Lemma threshold_spec (s : Z) :
  0 <= s < 100 ->
  exists mt y, motionThreshold s = fin53 mt (- y) /\
    2 ^ 52 <= mt < 2 ^ 53 /\ 47 <= y <= 60 /\
    2 * Z.abs (3 * mt - (100 - s) * 2 ^ y) <= 3.
Proof.
  intros Hs. pose proof (thresholdOK_all s ltac:(lia)) as H.
  unfold thresholdOK in H.
  destruct (motionThreshold s) as [[]|[]| |[] m e]; try discriminate.
  - apply Z.eqb_eq in H. lia.
  - rewrite !andb_true_iff in H.
    destruct H as (((((H1 & H2) & H3) & H4) & H5) & _).
    exists (Z.pos m), (- e). rewrite Z.opp_involutive.
    split; [reflexivity|]. lia.
Qed.

Lemma threshold_100 : motionThreshold 100 = S754_zero false.
Proof. reflexivity. Qed.


Lemma bracket_unique (a b x y : Z) :
  0 < a -> 0 < b -> 0 <= x -> 0 <= y ->
  2 ^ 52 * b <= a * 2 ^ x < 2 ^ 53 * b ->
  2 ^ 52 * b <= a * 2 ^ y < 2 ^ 53 * b ->
  x = y.
Proof.
  assert (Hlt : forall x y, 0 <= x -> x < y -> 0 < a -> 0 < b ->
            2 ^ 52 * b <= a * 2 ^ x -> a * 2 ^ y < 2 ^ 53 * b -> False).
  { clear. intros x y Hx Hxy Ha Hb H1 H2.
    assert (Hp : 2 * 2 ^ x <= 2 ^ y).
    { rewrite <- Z.pow_succ_r by lia. apply Z.pow_le_mono_r; lia. }
    assert (a * (2 * 2 ^ x) <= a * 2 ^ y) by (apply Z.mul_le_mono_nonneg_l; lia).
    change (2 ^ 53) with (2 * 2 ^ 52) in H2. lia. }
  intros Ha Hb Hx Hy [H1 H2] [H3 H4].
  destruct (Z.lt_trichotomy x y) as [Hxy|[Hxy|Hxy]]; [|exact Hxy|]; exfalso; eauto.
Qed.

(** The quotient depends on the ratio only. *)
Lemma div_scale (a b t : Z) :
  0 < a -> a <= b -> 0 < t -> b * t < 2 ^ 53 ->
  SFdiv 53 1024 (of_Z (a * t)) (of_Z (b * t)) = SFdiv 53 1024 (of_Z a) (of_Z b).
Proof.
  intros Ha Hab Ht Hb.
  assert (Hb' : b < 2 ^ 53) by nia.
  destruct (div_of_Z (a * t) (b * t)) as (x1 & Hx1 & Hbr1 & -> & _); [nia|nia|lia|].
  destruct (div_of_Z a b) as (x2 & Hx2 & Hbr2 & -> & _); [lia|lia|lia|].
  assert (Hbr1' : 2 ^ 52 * b <= a * 2 ^ x1 < 2 ^ 53 * b).
  { replace (2 ^ 52 * (b * t)) with (2 ^ 52 * b * t) in Hbr1 by ring.
    replace (a * t * 2 ^ x1) with (a * 2 ^ x1 * t) in Hbr1 by ring.
    replace (2 ^ 53 * (b * t)) with (2 ^ 53 * b * t) in Hbr1 by ring.
    destruct Hbr1 as [Hlo Hhi].
    apply Z.mul_le_mono_pos_r in Hlo; [|exact Ht].
    apply Z.mul_lt_mono_pos_r in Hhi; [|exact Ht]. lia. }
  assert (x1 = x2) by (apply (bracket_unique a b); lia). subst x2.
  replace (a * t * 2 ^ x1) with (a * 2 ^ x1 * t) by ring.
  rewrite RNEZ_scale by lia. reflexivity.
Qed.

Lemma percentage_scale (a b t : Z) :
  0 < a -> a <= b -> 0 < t -> b * t < 2 ^ 53 ->
  percentage (a * t) (b * t) = percentage a b.
Proof. intros. rewrite div_scale by assumption. reflexivity. Qed.

Lemma percentage_none (n : Z) :
  0 < n < 2 ^ 53 -> percentage 0 n = S754_zero false.
Proof.
  intros Hn.
  destruct (of_Z_canonical n Hn) as (-> & _). reflexivity.
Qed.

(** A threshold [mt * 2^(-y)] that approximates [c / d] to half a unit
    in the last place separates the percentages on either side of
    [c / d]. *)
Section Decide.

Variables k n : Z.
Hypothesis Hk : 0 < k <= n.
Hypothesis Hn : n < 2 ^ 40.

Variables c d mt y : Z.
Hypothesis Hc : 1 <= c <= 100.
Hypothesis Hd : d = 1 \/ d = 3.
Hypothesis Hmt : 2 ^ 52 <= mt < 2 ^ 53.
Hypothesis Hy : 47 <= y <= 60.
Hypothesis Hterr : 2 * Z.abs (d * mt - c * 2 ^ y) <= d.

Lemma decide_above :
  c * n < 100 * d * k -> SFltb (fin53 mt (- y)) (percentage k n) = true.
Proof.
  intros Hgt.
  destruct (percentage_spec k n ltac:(lia) ltac:(lia) ltac:(eval_pows; lia))
    as (P & xp & -> & HP & Hxp & Herr).
  rewrite ltb_canonical by lia. apply Z.ltb_lt.
  pose proof (Z.pow_le_mono_r 2 47 y ltac:(lia) ltac:(lia)) as HY.
  assert (0 < 2 ^ xp) by (apply Z.pow_pos_nonneg; lia).
  set (Xp := 2 ^ xp) in *. set (Y := 2 ^ y) in *. clearbody Xp Y.
  eval_pows.
  assert (HXp : 4503599627370494 <= 100 * Xp).
  { assert (Hx1 : 4503599627370494 * n <= P * n - 2 * n) by nia.
    assert (Hx2 : 100 * (k * Xp) <= (100 * Xp) * n) by nia.
    assert (Hx3 : 4503599627370494 * n <= (100 * Xp) * n) by lia.
    apply Z.mul_le_mono_pos_r in Hx3; lia. }
  assert (Hlow : 100 * (k * Xp) - 2 * n <= P * n) by lia.
  assert (Ha : 100 * (k * Xp * Y) - 2 * (n * Y) <= P * n * Y).
  { apply (Z.mul_le_mono_nonneg_r _ _ Y) in Hlow; [|lia].
    replace ((100 * (k * Xp) - 2 * n) * Y)
      with (100 * (k * Xp * Y) - 2 * (n * Y)) in Hlow by ring.
    exact Hlow. }
  assert (Hb : c * n * Xp * Y + Xp * Y <= 100 * d * (k * Xp * Y)).
  { assert (Hb0 : c * n + 1 <= 100 * d * k) by lia.
    apply (Z.mul_le_mono_nonneg_r _ _ (Xp * Y)) in Hb0; [|apply Z.mul_nonneg_nonneg; lia].
    replace ((c * n + 1) * (Xp * Y)) with (c * n * Xp * Y + Xp * Y) in Hb0 by ring.
    replace (100 * d * k * (Xp * Y)) with (100 * d * (k * Xp * Y)) in Hb0 by ring.
    exact Hb0. }
  assert (Hcc : 2 * d * (mt * Xp * n) <= 2 * (c * n * Xp * Y) + d * (Xp * n)).
  { assert (Hc0 : 2 * d * mt <= 2 * (c * Y) + d) by lia.
    apply (Z.mul_le_mono_nonneg_r _ _ (Xp * n)) in Hc0; [|apply Z.mul_nonneg_nonneg; lia].
    replace (2 * d * mt * (Xp * n)) with (2 * d * (mt * Xp * n)) in Hc0 by ring.
    replace ((2 * (c * Y) + d) * (Xp * n))
      with (2 * (c * n * Xp * Y) + d * (Xp * n)) in Hc0 by ring.
    exact Hc0. }
  assert (Hdd : 3 * (Xp * n) + 12 * (n * Y) < 2 * (Xp * Y)).
  { assert (Hd1 : Xp * (3 * n) < Xp * Y) by (apply Z.mul_lt_mono_pos_l; lia).
    assert (Hd2 : (12 * n) * Y <= Xp * Y) by (apply Z.mul_le_mono_nonneg_r; lia).
    lia. }
  assert (0 <= Xp * n) by (apply Z.mul_nonneg_nonneg; lia).
  assert (0 <= n * Y) by (apply Z.mul_nonneg_nonneg; lia).
  assert (He : mt * Xp * n < P * n * Y) by (destruct Hd; subst d; lia).
  replace (mt * Xp * n) with ((mt * Xp) * n) in He by ring.
  replace (P * n * Y) with ((P * Y) * n) in He by ring.
  apply Z.mul_lt_mono_pos_r in He; lia.
Qed.

Lemma decide_below :
  100 * d * k < c * n -> SFltb (fin53 mt (- y)) (percentage k n) = false.
Proof.
  intros Hlt.
  destruct (percentage_spec k n ltac:(lia) ltac:(lia) ltac:(eval_pows; lia))
    as (P & xp & -> & HP & Hxp & Herr).
  rewrite ltb_canonical by lia. apply Z.ltb_ge.
  pose proof (Z.pow_le_mono_r 2 47 y ltac:(lia) ltac:(lia)) as HY.
  assert (0 < 2 ^ xp) by (apply Z.pow_pos_nonneg; lia).
  set (Xp := 2 ^ xp) in *. set (Y := 2 ^ y) in *. clearbody Xp Y.
  eval_pows.
  assert (HXp : 4503599627370494 <= 100 * Xp).
  { assert (Hx1 : 4503599627370494 * n <= P * n - 2 * n) by nia.
    assert (Hx2 : 100 * (k * Xp) <= (100 * Xp) * n) by nia.
    assert (Hx3 : 4503599627370494 * n <= (100 * Xp) * n) by lia.
    apply Z.mul_le_mono_pos_r in Hx3; lia. }
  assert (Hhigh : P * n <= 100 * (k * Xp) + 2 * n) by lia.
  assert (Ha : P * n * Y <= 100 * (k * Xp * Y) + 2 * (n * Y)).
  { apply (Z.mul_le_mono_nonneg_r _ _ Y) in Hhigh; [|lia].
    replace ((100 * (k * Xp) + 2 * n) * Y)
      with (100 * (k * Xp * Y) + 2 * (n * Y)) in Hhigh by ring.
    exact Hhigh. }
  assert (Hb : 100 * d * (k * Xp * Y) + Xp * Y <= c * n * Xp * Y).
  { assert (Hb0 : 100 * d * k + 1 <= c * n) by lia.
    apply (Z.mul_le_mono_nonneg_r _ _ (Xp * Y)) in Hb0; [|apply Z.mul_nonneg_nonneg; lia].
    replace ((100 * d * k + 1) * (Xp * Y))
      with (100 * d * (k * Xp * Y) + Xp * Y) in Hb0 by ring.
    replace (c * n * (Xp * Y)) with (c * n * Xp * Y) in Hb0 by ring.
    exact Hb0. }
  assert (Hcc : 2 * (c * n * Xp * Y) - d * (Xp * n) <= 2 * d * (mt * Xp * n)).
  { assert (Hc0 : 2 * (c * Y) - d <= 2 * d * mt) by lia.
    apply (Z.mul_le_mono_nonneg_r _ _ (Xp * n)) in Hc0; [|apply Z.mul_nonneg_nonneg; lia].
    replace (2 * d * mt * (Xp * n)) with (2 * d * (mt * Xp * n)) in Hc0 by ring.
    replace ((2 * (c * Y) - d) * (Xp * n))
      with (2 * (c * n * Xp * Y) - d * (Xp * n)) in Hc0 by ring.
    exact Hc0. }
  assert (Hdd : 3 * (Xp * n) + 12 * (n * Y) < 2 * (Xp * Y)).
  { assert (Hd1 : Xp * (3 * n) < Xp * Y) by (apply Z.mul_lt_mono_pos_l; lia).
    assert (Hd2 : (12 * n) * Y <= Xp * Y) by (apply Z.mul_le_mono_nonneg_r; lia).
    lia. }
  assert (0 <= Xp * n) by (apply Z.mul_nonneg_nonneg; lia).
  assert (0 <= n * Y) by (apply Z.mul_nonneg_nonneg; lia).
  assert (He : P * n * Y <= mt * Xp * n) by (destruct Hd; subst d; lia).
  replace (mt * Xp * n) with ((mt * Xp) * n) in He by ring.
  replace (P * n * Y) with ((P * Y) * n) in He by ring.
  apply Z.mul_le_mono_pos_r in He; lia.
Qed.

End Decide.

(** * The detection tick, field by field *)

Lemma detectMotion_skipped (env : TickEnv) (st : AppState) :
  sampled env = false -> detectMotion env st = st.
Proof.
  unfold sampled, detectMotion.
  destruct (noVideo env); [reflexivity|].
  destruct (negb (context2d env)); [reflexivity|discriminate].
Qed.


Lemma detectMotion_fireDetected (env : TickEnv) (st : AppState) :
  fireDetected (detection (detectMotion env st)) =
  if noVideo env || negb (context2d env) then fireDetected (detection st)
  else detectFire (getImageData env).
Proof. tick_cases. Qed.


Lemma updateFire_previousFrameRef (env : TickEnv) (fire : bool) (st : AppState) :
  previousFrameRef (updateFire env fire st) = previousFrameRef st.
Proof.
  unfold updateFire, startAlarm, stopAlarm.
  destruct (fire && _); [|destruct (negb fire && _)];
    destruct (audioContextRef st);
    cbn [oscillatorRef set_audioContextRef]; destruct (oscillatorRef st);
    reflexivity.
Qed.

Lemma updateFire_frame (env : TickEnv) (fire : bool) (st : AppState) :
  lastCaptureTimeRef (updateFire env fire st) = lastCaptureTimeRef st /\
  capturedFrames (updateFire env fire st) = capturedFrames st /\
  sensitivity (updateFire env fire st) = sensitivity st /\
  detectionIntervalRef (updateFire env fire st) = detectionIntervalRef st /\
  motionDetected (detection (updateFire env fire st)) = motionDetected (detection st) /\
  isActive (detection (updateFire env fire st)) = isActive (detection st) /\
  fireDetected (detection (updateFire env fire st)) = fire.
Proof.
  unfold updateFire, startAlarm, stopAlarm.
  destruct (fire && _); [|destruct (negb fire && _)];
    destruct (audioContextRef st);
    cbn [oscillatorRef set_audioContextRef]; destruct (oscillatorRef st);
    repeat split.
Qed.

(** A tick either leaves the store and the capture stamp alone, or it ran
    past the guards with a previous frame at hand and more than the
    cooldown elapsed, appended one entry and stamped the time. *)
Lemma detectMotion_store (env : TickEnv) (st : AppState) :
  (capturedFrames (detectMotion env st) = capturedFrames st /\
   lastCaptureTimeRef (detectMotion env st) = lastCaptureTimeRef st) \/
  (sampled env = true /\ (exists prev, previousFrameRef st = Some prev) /\
   CAPTURE_COOLDOWN < now_check env - lastCaptureTimeRef st /\
   capturedFrames (detectMotion env st) =
     capturedFrames st ++ [mkCaptured (encoded env) (now_entry env)] /\
   lastCaptureTimeRef (detectMotion env st) = now_stamp env).
Proof.
  unfold detectMotion, sampled.
  destruct (noVideo env) eqn:Hv; [left; split; reflexivity|].
  destruct (context2d env) eqn:Hc; cbn [negb orb]; [|left; split; reflexivity].
  destruct (updateFire_frame env (detectFire (getImageData env)) st)
    as (Hl & Hf & _).
  rewrite updateFire_previousFrameRef.
  destruct (previousFrameRef st) as [prev|] eqn:Hp;
    [|left; simpl; split; assumption].
  unfold captureStep, captureFrame. rewrite Hv, Hc. cbn [negb].
  destruct (_ || _); cbn [andb]; [|left; simpl; split; assumption].
  cbn [lastCaptureTimeRef setDetection]. rewrite Hl.
  destruct (Z.ltb_spec CAPTURE_COOLDOWN (now_check env - lastCaptureTimeRef st));
    [|left; simpl; split; assumption].
  destruct (truthy (encoded env)); [|left; simpl; split; assumption].
  right.
  cbn [capturedFrames lastCaptureTimeRef setCapturedFrames set_lastCaptureTimeRef
       setDetection set_previousFrameRef].
  rewrite Hf. repeat split; eauto.
Qed.

Lemma detectMotion_motionDetected (env : TickEnv) (st : AppState) (prev : ImageData) :
  sampled env = true -> previousFrameRef st = Some prev ->
  motionDetected (detection (detectMotion env st)) =
  motionHeuristic (getImageData env) prev (sensitivity st).
Proof.
  unfold detectMotion, sampled. intros Hs Hp.
  destruct (noVideo env); [discriminate|].
  destruct (negb (context2d env)); [discriminate|].
  destruct (updateFire_frame env (detectFire (getImageData env)) st)
    as (_ & _ & Hsens & _).
  rewrite updateFire_previousFrameRef, Hp, Hsens.
  unfold captureStep.
  destruct (_ && _); [|reflexivity].
  destruct (captureFrame _) as [u|]; [|reflexivity].
  destruct (truthy u); reflexivity.
Qed.

Lemma detectMotion_no_previous (env : TickEnv) (st : AppState) :
  previousFrameRef st = None ->
  motionDetected (detection (detectMotion env st)) = motionDetected (detection st).
Proof.
  unfold detectMotion. intros Hp.
  destruct (noVideo env); [reflexivity|].
  destruct (negb (context2d env)); [reflexivity|].
  rewrite updateFire_previousFrameRef, Hp. simpl.
  apply updateFire_frame.
Qed.

Lemma detectMotion_previousFrameRef (env : TickEnv) (st : AppState) :
  previousFrameRef (detectMotion env st) =
  if sampled env then Some (getImageData env) else previousFrameRef st.
Proof.
  unfold detectMotion, sampled.
  destruct (noVideo env); [reflexivity|].
  destruct (negb (context2d env)); reflexivity.
Qed.

(** * The two pixel loops count pixel positions *)

Lemma fire_test_pixel (d : list Z) (p : nat) :
  fire_test d (4 * p) = isFirePixel d p.
Proof.
  unfold fire_test, isFirePixel.
  destruct (d !! (4 * p)%nat) as [r|], (d !! (4 * p + 1)%nat) as [g|],
           (d !! (4 * p + 2)%nat) as [b|]; simpl;
    rewrite ?andb_false_r; reflexivity.
Qed.

Lemma diff_test_pixel (cur prev : list Z) (p : nat) :
  diff_test cur prev (4 * p) = isChangedPixel cur prev p.
Proof.
  unfold diff_test, pixel_diff, isChangedPixel.
  destruct (cur !! (4 * p)%nat), (cur !! (4 * p + 1)%nat), (cur !! (4 * p + 2)%nat),
           (prev !! (4 * p)%nat), (prev !! (4 * p + 1)%nat), (prev !! (4 * p + 2)%nat);
    reflexivity.
Qed.

Section Loops.

Variable test : nat -> bool.          (* the test at sample index [i] *)
Variable body : nat -> bool.          (* the same, at pixel position [p] *)
Hypothesis test_body : forall p, test (4 * p) = body p.

(** The shape shared by [fire_loop] and [diff_loop]. *)
Variable loop : nat -> nat -> Z -> Z.
Variable len : nat.
Hypothesis loop_O : forall i acc, loop O i acc = acc.
Hypothesis loop_S : forall fuel i acc,
  loop (S fuel) i acc =
  if (i <? len)%nat then loop fuel (i + 4)%nat (if test i then acc + 1 else acc)
  else acc.

Lemma loop_counts (n : nat) :
  forall (p : nat) (acc : Z) (fuel : nat),
    len = (4 * (p + n))%nat -> (n <= fuel)%nat ->
    loop fuel (4 * p) acc = acc + Z.of_nat (length (List.filter body (seq p n))).
Proof.
  induction n as [|n IH]; intros p acc fuel Hlen Hfuel.
  - cbn [seq List.filter length Z.of_nat]. rewrite Z.add_0_r.
    destruct fuel; [apply loop_O|].
    rewrite loop_S. destruct (Nat.ltb_spec (4 * p) len); [lia|reflexivity].
  - destruct fuel as [|fuel]; [lia|].
    rewrite loop_S. destruct (Nat.ltb_spec (4 * p) len); [|lia].
    replace (4 * p + 4)%nat with (4 * S p)%nat by lia.
    rewrite IH by lia. rewrite test_body.
    cbn [seq List.filter]. destruct (body p); cbn [length]; lia.
Qed.

End Loops.

Lemma fire_loop_counts (d : list Z) (n : nat) :
  length d = (4 * n)%nat ->
  fire_loop (length d) d 0 0 = countPixels (isFirePixel d) n.
Proof.
  intros Hlen. unfold countPixels.
  apply (loop_counts (fire_test d) (isFirePixel d) (fire_test_pixel d)
           (fun fuel => fire_loop fuel d) (length d)
           (fun _ _ => eq_refl) (fun _ _ _ => eq_refl) n 0%nat 0 (length d)); lia.
Qed.

Lemma diff_loop_counts (cur prev : list Z) (n : nat) :
  length cur = (4 * n)%nat ->
  diff_loop (length cur) cur prev 0 0 = countPixels (isChangedPixel cur prev) n.
Proof.
  intros Hlen. unfold countPixels.
  apply (loop_counts (diff_test cur prev) (isChangedPixel cur prev)
           (diff_test_pixel cur prev)
           (fun fuel => diff_loop fuel cur prev) (length cur)
           (fun _ _ => eq_refl) (fun _ _ _ => eq_refl) n 0%nat 0 (length cur)); lia.
Qed.

Lemma wf_image_length (img : ImageData) :
  wf_image img -> length (data img) = (4 * Z.to_nat (totalPixelCount img))%nat.
Proof.
  intros (Hw & Hh & Hlen & _). rewrite Hlen. unfold totalPixelCount. nia.
Qed.

(** [detectFire] compares the percentage of fire-coloured pixel positions
    with 1, in double precision. *)
Lemma detectFire_counts (img : ImageData) :
  length (data img) = (4 * Z.to_nat (totalPixelCount img))%nat ->
  detectFire img =
  Number.gt (firePercentage (fireColoredCount img) (totalPixelCount img))
            (Number.of_Z 1).
Proof.
  intros Hlen. unfold detectFire, fireColoredCount.
  rewrite (fire_loop_counts _ _ Hlen). reflexivity.
Qed.

(** [motionHeuristic] compares the percentage of changed pixel positions
    with the threshold, in double precision. *)
Lemma motionHeuristic_counts (cur prev : ImageData) (sensitivity : Z) :
  length (data cur) = (4 * Z.to_nat (totalPixelCount cur))%nat ->
  motionHeuristic cur prev sensitivity =
  Number.gt (diffPercentage (changedCount cur prev) (totalPixelCount cur))
            (motionThreshold sensitivity).
Proof.
  intros Hlen. unfold motionHeuristic, changedCount.
  rewrite (diff_loop_counts _ _ _ Hlen). reflexivity.
Qed.

Lemma countPixels_bounds (P : nat -> bool) (n : nat) :
  0 <= countPixels P n <= Z.of_nat n.
Proof.
  unfold countPixels. pose proof (List.filter_length_le P (seq 0 n)) as H.
  rewrite length_seq in H. lia.
Qed.

(** * Timelapse assembler *)

Section Timelapse.

Variable env : AssemblyEnv.
Variable frames : list CapturedFrame.

Lemma timers_idle (fuel : nat) (a : Assembly) :
  pending a = false -> timers fuel env frames a = a.
Proof. destruct fuel; simpl; intros H; [|rewrite H]; reflexivity. Qed.

(** Started on frame [i] with a callback pending, the timer chain visits
    every remaining frame once, then stops the recorder. *)
Lemma timers_from (k : nat) :
  forall (i : nat) (tr : list Effect) (fuel : nat),
    (i + k)%nat = length frames -> (k < fuel)%nat ->
    timers fuel env frames (mkAssembly i tr true) =
    mkAssembly (length frames)
      (tr ++ imap (fun j => frameEffect env (i + j)) (drop i frames)
          ++ [RecorderStop; Download (stop_time env)])
      false.
Proof.
  induction k as [|k IH]; intros i tr fuel Hlen Hfuel.
  - destruct fuel as [|fuel]; [lia|].
    assert (i = length frames) as -> by lia.
    simpl. unfold drawNextFrame. simpl.
    rewrite Nat.leb_refl, timers_idle by reflexivity.
    rewrite drop_all. reflexivity.
  - destruct fuel as [|fuel]; [lia|].
    simpl. unfold drawNextFrame. simpl.
    destruct (Nat.leb_spec (length frames) i) as [Hle|Hlt]; [lia|].
    destruct (lookup_lt_is_Some_2 frames i Hlt) as [f Hf].
    rewrite Hf, (drop_S _ _ _ Hf). simpl.
    assert (Hstep : forall e,
      timers fuel env frames (mkAssembly (S i) (tr ++ [e]) true) =
      mkAssembly (length frames)
        (tr ++ e :: imap (fun j => frameEffect env (i + S j)) (drop (S i) frames)
            ++ [RecorderStop; Download (stop_time env)]) false).
    { intros e. rewrite IH by lia. rewrite <- app_assoc. simpl.
      rewrite (imap_ext (fun j => frameEffect env (S (i + j)))
                        (fun j => frameEffect env (i + S j))); [reflexivity|].
      intros j x _. f_equal. lia. }
    unfold frameEffect at 1. rewrite Nat.add_0_r.
    destruct (decode env (dataUrl f)); apply Hstep.
Qed.

End Timelapse.

Lemma downloads_app (t u : list Effect) :
  downloads (t ++ u) = (downloads t + downloads u)%nat.
Proof. unfold downloads. rewrite List.filter_app, length_app. reflexivity. Qed.

Lemma downloads_frameEffects (env : AssemblyEnv) (l : list CapturedFrame) :
  forall g : nat -> nat, downloads (imap (fun j => frameEffect env (g j)) l) = 0%nat.
Proof.
  induction l as [|f l IH]; intros g; [reflexivity|].
  simpl. unfold downloads in *. simpl.
  unfold frameEffect at 1. destruct (decode env (dataUrl f)); simpl; apply (IH (g ∘ S)).
Qed.

(** C7: with fewer than two captured frames, [createTimelapse] sets the
    user-visible error and does nothing else: no recorder is started, no
    callback is left pending and no file is downloaded, whatever time
    passes afterwards. *)
Theorem createTimelapse_too_few (fuel : nat) (env : AssemblyEnv) (st : AppState) :
  (length (capturedFrames st) < 2)%nat ->
  error (fst (createTimelapse fuel env st)) = "Not enough frames captured for timelapse" /\
  capturedFrames (fst (createTimelapse fuel env st)) = capturedFrames st /\
  trace (snd (createTimelapse fuel env st)) = [] /\
  pending (snd (createTimelapse fuel env st)) = false /\
  downloads (trace (snd (createTimelapse fuel env st))) = 0%nat.
Proof.
  intros H. unfold createTimelapse.
  destruct (Nat.ltb_spec (length (capturedFrames st)) 2) as [_|Hge]; [|lia].
  simpl. repeat split.
Qed.

Lemma createTimelapse_too_few_witness :
  (length (capturedFrames oneFrame) < 2)%nat /\
  error (fst (createTimelapse 5 decodeEnv oneFrame)) = "Not enough frames captured for timelapse" /\
  capturedFrames (fst (createTimelapse 5 decodeEnv oneFrame)) = capturedFrames oneFrame /\
  trace (snd (createTimelapse 5 decodeEnv oneFrame)) = [] /\
  pending (snd (createTimelapse 5 decodeEnv oneFrame)) = false /\
  downloads (trace (snd (createTimelapse 5 decodeEnv oneFrame))) = 0%nat.
Proof.
  split; [simpl; lia | apply (createTimelapse_too_few 5 decodeEnv oneFrame); simpl; lia].
Defined.

(** C8, as stated, fails when it is the first frame that does not decode:
    two frames are captured, the first one is broken, and the assembly
    ends after logging, with no recorder started, nothing pending and no
    download. *)
Lemma createTimelapse_first_frame_aborts :
  (2 <= length (capturedFrames brokenFirst))%nat /\
  ctx decodeEnv = true /\
  snd (createTimelapse 3 decodeEnv brokenFirst) = mkAssembly 0 [LogFirstFrameFailed] false /\
  downloads (trace (snd (createTimelapse 3 decodeEnv brokenFirst))) = 0%nat.
Proof. repeat split; simpl; lia. Qed.

(** C8, amended: with N >= 2 frames and a drawing context, if the first
    frame decodes then every frame is visited once in order, a frame that
    fails to decode is logged and skipped, and after the N frames the
    recorder is stopped and exactly one file is downloaded; N + 1 timer
    callbacks are enough and further ones change nothing.  If the first
    frame does not decode, the failure is logged and no file is produced. *)
Theorem createTimelapse_assembles (env : AssemblyEnv) (st : AppState)
    (first : CapturedFrame) (fuel : nat) :
  (2 <= length (capturedFrames st))%nat ->
  ctx env = true ->
  capturedFrames st !! 0%nat = Some first ->
  (length (capturedFrames st) < fuel)%nat ->
  (forall w h, decode env (dataUrl first) = Some (w, h) ->
     fst (createTimelapse fuel env st) = st /\
     snd (createTimelapse fuel env st) =
       mkAssembly (length (capturedFrames st))
         ([CanvasSize w h; RecorderStart]
            ++ imap (frameEffect env) (capturedFrames st)
            ++ [RecorderStop; Download (stop_time env)])
         false /\
     downloads (trace (snd (createTimelapse fuel env st))) = 1%nat) /\
  (decode env (dataUrl first) = None ->
     snd (createTimelapse fuel env st) = mkAssembly 0 [LogFirstFrameFailed] false /\
     downloads (trace (snd (createTimelapse fuel env st))) = 0%nat).
Proof.
  intros Hn Hctx Hfirst Hfuel. unfold createTimelapse.
  destruct (Nat.ltb_spec (length (capturedFrames st)) 2) as [Hlt|_]; [lia|].
  rewrite Hctx, Hfirst. cbn [negb]. split.
  - intros w h ->.
    rewrite (timers_from env (capturedFrames st) (length (capturedFrames st)) 0)
      by (simpl; lia).
    rewrite drop_0. cbn [fst snd trace]. repeat split.
    rewrite !downloads_app, (downloads_frameEffects env _ id). reflexivity.
  - intros ->. split; reflexivity.
Qed.

Lemma createTimelapse_assembles_witness :
  (2 <= length (capturedFrames brokenLast))%nat /\
  ctx decodeEnv = true /\
  snd (createTimelapse 3 decodeEnv brokenLast) =
    mkAssembly 2
      [CanvasSize 640 480; RecorderStart;
       ClearAndDraw "data:image/webp;base64,UklGRg"; LogFrameFailed 1;
       RecorderStop; Download 1700000009000] false /\
  downloads (trace (snd (createTimelapse 3 decodeEnv brokenLast))) = 1%nat.
Proof.
  assert (H2 : (2 <= length (capturedFrames brokenLast))%nat) by (simpl; lia).
  assert (H3 : (length (capturedFrames brokenLast) < 3)%nat) by (simpl; lia).
  destruct (createTimelapse_assembles decodeEnv brokenLast
              (mkCaptured "data:image/webp;base64,UklGRg" 1700000000000) 3
              H2 eq_refl eq_refl H3) as [Hok _].
  destruct (Hok 640 480 eq_refl) as (_ & Ha & Hd).
  split; [exact H2 | split; [reflexivity | split; [exact Ha | exact Hd]]].
Defined.

(** * Alarm *)








(** * Sessions *)

Lemma run_snoc (evs : list Event) (ev : Event) (st : AppState) :
  run (evs ++ [ev]) st = handle ev (run evs st).
Proof. unfold run. rewrite fold_left_app. reflexivity. Qed.

Lemma run_cons (ev : Event) (evs : list Event) (st : AppState) :
  run (ev :: evs) st = run evs (handle ev st).
Proof. reflexivity. Qed.

(** ** No previous frame, no motion *)

Lemma handle_motionNeedsPrevious (ev : Event) (st : AppState) :
  motionNeedsPrevious st -> motionNeedsPrevious (handle ev st).
Proof.
  unfold motionNeedsPrevious. intros Inv.
  destruct ev as [granted|env|v]; simpl.
  - unfold toggleDetection, startCamera, stopCamera.
    destruct (negb _); [destruct granted|]; simpl; auto.
  - destruct (detectionIntervalRef st); [|exact Inv].
    rewrite detectMotion_previousFrameRef.
    destruct (sampled env) eqn:Hs; [discriminate|].
    rewrite detectMotion_skipped by exact Hs. exact Inv.
  - exact Inv.
Qed.

Lemma run_motionNeedsPrevious (evs : list Event) :
  forall st, motionNeedsPrevious st -> motionNeedsPrevious (run evs st).
Proof.
  induction evs as [|ev evs IH]; intros st Inv; [exact Inv|].
  rewrite run_cons. apply IH, handle_motionNeedsPrevious, Inv.
Qed.

(** C4, as stated, fails on a dimension mismatch: a 2x1 black frame
    followed by a 1x1 white frame, at the default sensitivity.  The second
    tick compares the buffers all the same, sets [motionDetected] and
    captures. *)
Lemma mismatched_frames_report_motion :
  let st := run [Toggle true; Tick (tickAt 2 1 (black ++ black) 1700000000000)]
                initialState in
  let env := tickAt 1 1 white 1700000000100 in
  (exists prev, previousFrameRef st = Some prev /\
                width prev <> width (getImageData env)) /\
  motionDetected (detection (detectMotion env st)) = true /\
  length (capturedFrames (detectMotion env st)) = 1%nat.
Proof.
  cbv zeta. split; [eexists; split; [reflexivity|simpl; lia]|].
  split; vm_compute; reflexivity.
Qed.

(** C4, amended: in every state the component can reach, a tick that
    finds no previous buffer does not run the motion heuristic:
    [motionDetected] is false after it, nothing is appended to the store
    and the capture time is not stamped.  (Dimensions are not compared.) *)
Theorem no_previous_no_motion (evs : list Event) (env : TickEnv) :
  previousFrameRef (run evs initialState) = None ->
  motionDetected (detection (detectMotion env (run evs initialState))) = false /\
  capturedFrames (detectMotion env (run evs initialState)) =
    capturedFrames (run evs initialState) /\
  lastCaptureTimeRef (detectMotion env (run evs initialState)) =
    lastCaptureTimeRef (run evs initialState).
Proof.
  intros Hp. split.
  - rewrite detectMotion_no_previous by exact Hp.
    apply (run_motionNeedsPrevious evs initialState); [intros _; reflexivity|exact Hp].
  - destruct (detectMotion_store env (run evs initialState))
      as [H|(_ & (prev & Hprev) & _)]; [exact H|congruence].
Qed.

Lemma no_previous_no_motion_witness :
  previousFrameRef (run [Toggle true] initialState) = None /\
  motionDetected (detection (detectMotion (tickAt 1 1 flame 1700000000000)
                               (run [Toggle true] initialState))) = false /\
  capturedFrames (detectMotion (tickAt 1 1 flame 1700000000000)
                    (run [Toggle true] initialState)) = [].
Proof.
  split; [reflexivity|].
  destruct (no_previous_no_motion [Toggle true] (tickAt 1 1 flame 1700000000000) eq_refl)
    as (Hm & Hc & _).
  split; [exact Hm | exact Hc].
Defined.

(** ** The capture cooldown *)

Lemma spaced_nil (gap : Z) : spaced gap [].
Proof. intros i j f g _ H. rewrite lookup_nil in H. discriminate. Qed.

Lemma spaced_snoc (gap : Z) (l : list CapturedFrame) (x : CapturedFrame) :
  spaced gap l ->
  Forall (fun f => gap <= timestamp x - timestamp f) l ->
  spaced gap (l ++ [x]).
Proof.
  intros Hl Hx i j f g Hij Hi Hj.
  destruct (decide (j < length l)%nat) as [Hjl|Hjl].
  - rewrite lookup_app_l in Hi, Hj by lia. exact (Hl i j f g Hij Hi Hj).
  - assert (i < length l)%nat as Hil.
    { apply lookup_lt_Some in Hj. rewrite length_app in Hj. simpl in Hj. lia. }
    rewrite lookup_app_l in Hi by lia.
    rewrite lookup_app_r in Hj by lia.
    apply lookup_lt_Some in Hj as Hj'. simpl in Hj'.
    replace (j - length l)%nat with 0%nat in Hj by lia.
    simpl in Hj. injection Hj as <-.
    rewrite Forall_lookup in Hx. eapply Hx; eauto.
Qed.

Lemma toggleDetection_store (granted : bool) (st : AppState) :
  lastCaptureTimeRef (toggleDetection granted st) = lastCaptureTimeRef st /\
  (capturedFrames (toggleDetection granted st) = capturedFrames st \/
   capturedFrames (toggleDetection granted st) = []).
Proof.
  unfold toggleDetection, startCamera, stopCamera, stopAlarm.
  destruct st as [prevF actx [osc|] [] [] last [[] mo fi] err frames sens];
    destruct granted; cbn; auto.
Qed.

Lemma detectMotion_storeInv (d : Z) (env : TickEnv) (st : AppState) :
  storeInv d st ->
  now_check env <= now_stamp env ->
  now_stamp env <= now_entry env <= now_stamp env + d ->
  storeInv d (detectMotion env st).
Proof.
  intros (Hall & Hsp) H1 H2. unfold storeInv.
  destruct (detectMotion_store env st) as [[-> ->]|(_ & _ & Hgap & -> & ->)].
  - split; assumption.
  - unfold CAPTURE_COOLDOWN in *. split.
    + apply Forall_app. split.
      * eapply Forall_impl; [exact Hall|]. simpl. intros; lia.
      * repeat constructor. simpl. lia.
    + apply spaced_snoc; [exact Hsp|].
      eapply Forall_impl; [exact Hall|]. simpl. intros; lia.
Qed.

Lemma run_storeInv (d : Z) (evs : list Event) :
  forall st, storeInv d st -> renderedWithin d evs -> storeInv d (run evs st).
Proof.
  unfold renderedWithin.
  induction evs as [|ev evs IH]; intros st Inv Hread; [exact Inv|].
  rewrite run_cons. apply Forall_cons in Hread as [Hev Hread].
  apply IH; [|exact Hread].
  destruct ev as [granted|env|v]; cbn [handle].
  - destruct Inv as (Hall & Hsp).
    destruct (toggleDetection_store granted st) as (Hl & [Hf|Hf]);
      unfold storeInv; rewrite Hl, Hf; split; auto using spaced_nil.
  - destruct (detectionIntervalRef st); [|exact Inv].
    apply detectMotion_storeInv; [exact Inv|apply Hev..].
  - exact Inv.
Qed.

(** C5, as stated, fails: the timestamp of an entry is read by the updater
    of line 176, which React runs at the next render, after line 180 has
    stamped the capture time.  Here the first capture is stamped at
    ...100 and dated ...105 by its updater; the next tick that passes the
    cooldown reads ...1101, which is 1001 ms after the stamp, and its entry
    is dated ...1101: the two entries are 996 ms apart. *)
Lemma stored_timestamps_closer_than_cooldown :
  clock_ok 0 lateUpdater /\
  renderedWithin 5 lateUpdater /\
  capturedFrames (run lateUpdater initialState) =
    [mkCaptured sampleUrl 1700000000105; mkCaptured sampleUrl 1700000001101] /\
  ~ spaced CAPTURE_COOLDOWN (capturedFrames (run lateUpdater initialState)).
Proof.
  assert (Hrun : capturedFrames (run lateUpdater initialState) =
            [mkCaptured sampleUrl 1700000000105; mkCaptured sampleUrl 1700000001101])
    by (vm_compute; reflexivity).
  split; [cbn; lia|]. split.
  - unfold renderedWithin, lateUpdater. repeat constructor; cbn; lia.
  - split; [exact Hrun|]. rewrite Hrun. intros Hsp.
    specialize (Hsp 0%nat 1%nat _ _ ltac:(lia) eq_refl eq_refl).
    unfold CAPTURE_COOLDOWN in Hsp. cbn in Hsp. lia.
Qed.

(** C5, amended: along every session (any sequence of button clicks, slider
    moves and ticks from the initial state) in which every updater of
    line 176 reads the clock no earlier than line 180 did and at most [d] ms
    after it, any two entries of the capture store are more than
    [1000 - d] ms apart; and a tick appends at most one entry, only when
    more than 1000 ms have passed since the last stamped capture time,
    stamping the time anew. *)
Theorem capture_store_spaced_within (evs : list Event) (d : Z) :
  renderedWithin d evs ->
  spaced (CAPTURE_COOLDOWN + 1 - d) (capturedFrames (run evs initialState)) /\
  (forall (env : TickEnv) (st : AppState),
     capturedFrames (detectMotion env st) <> capturedFrames st ->
     CAPTURE_COOLDOWN < now_check env - lastCaptureTimeRef st /\
     capturedFrames (detectMotion env st) =
       capturedFrames st ++ [mkCaptured (encoded env) (now_entry env)] /\
     lastCaptureTimeRef (detectMotion env st) = now_stamp env).
Proof.
  intros Hread. split.
  - apply (run_storeInv d evs initialState); [|exact Hread].
    split; [constructor|apply spaced_nil].
  - intros env st Hne.
    destruct (detectMotion_store env st) as [[H _]|(_ & _ & Hgap & Hf & Hl)];
      [congruence|]. repeat split; assumption.
Qed.

Lemma capture_store_spaced_within_witness :
  renderedWithin 5 lateUpdater /\
  spaced 996 (capturedFrames (run lateUpdater initialState)) /\
  renderedWithin 0 flameSession /\
  spaced 1001 (capturedFrames (run flameSession initialState)).
Proof.
  assert (H5 : renderedWithin 5 lateUpdater).
  { unfold renderedWithin, lateUpdater. repeat constructor; cbn; lia. }
  assert (H0 : renderedWithin 0 flameSession).
  { unfold renderedWithin, flameSession. repeat constructor; cbn; lia. }
  split; [exact H5|].
  split; [exact (proj1 (capture_store_spaced_within lateUpdater 5 H5))|].
  split; [exact H0|].
  exact (proj1 (capture_store_spaced_within flameSession 0 H0)).
Defined.

(** C6, as stated, fails twice over.  On the first tick of a session no
    previous buffer exists: the flame-coloured frame sets [fireDetected],
    the last capture lies far more than 1000 ms back, and yet nothing is
    captured or stamped.  And with a previous buffer at hand, a tick
    exactly 1000 ms after the last capture does not capture either. *)
Lemma fire_without_previous_not_captured :
  (let st := run [Toggle true] initialState in
   let env := tickAt 1 1 flame 1700000000000 in
   sampled env = true /\
   fireDetected (detection (detectMotion env st)) = true /\
   CAPTURE_COOLDOWN <= now_check env - lastCaptureTimeRef st /\
   capturedFrames (detectMotion env st) = [] /\
   lastCaptureTimeRef (detectMotion env st) = 0) /\
  (let st := run [Toggle true; Tick (tickAt 1 1 flame 1700000000000);
                  Tick (tickAt 1 1 flame 1700000000100)] initialState in
   let env := tickAt 1 1 flame 1700000001100 in
   sampled env = true /\
   fireDetected (detection (detectMotion env st)) = true /\
   CAPTURE_COOLDOWN <= now_check env - lastCaptureTimeRef st /\
   capturedFrames (detectMotion env st) = capturedFrames st /\
   lastCaptureTimeRef (detectMotion env st) = lastCaptureTimeRef st).
Proof. split; cbv zeta; repeat split; vm_compute; congruence. Qed.

(** C6, amended: on a tick that sampled a buffer and found a previous
    one, if [motionDetected] or [fireDetected] comes out true and more
    than 1000 ms have passed since the last stamped capture time, the frame
    is captured: its data URL (never empty) is appended with the clock
    reading, and the capture time is stamped. *)
Theorem tick_captures (env : TickEnv) (st : AppState) (prev : ImageData) :
  sampled env = true ->
  previousFrameRef st = Some prev ->
  motionDetected (detection (detectMotion env st))
    || fireDetected (detection (detectMotion env st)) = true ->
  CAPTURE_COOLDOWN < now_check env - lastCaptureTimeRef st ->
  truthy (encoded env) = true ->
  capturedFrames (detectMotion env st) =
    capturedFrames st ++ [mkCaptured (encoded env) (now_entry env)] /\
  lastCaptureTimeRef (detectMotion env st) = now_stamp env.
Proof.
  intros Hs Hp Hflags Hgap Hurl.
  rewrite (detectMotion_motionDetected env st prev Hs Hp) in Hflags.
  rewrite detectMotion_fireDetected in Hflags.
  revert Hs Hflags. unfold sampled, detectMotion.
  destruct (noVideo env) eqn:Hv; [discriminate|].
  destruct (context2d env) eqn:Hc; [|discriminate].
  cbn [negb orb]. intros _ Hflags.
  destruct (updateFire_frame env (detectFire (getImageData env)) st)
    as (Hl & Hf & Hsens & _).
  rewrite updateFire_previousFrameRef, Hp, Hsens.
  unfold captureStep, captureFrame. rewrite Hflags, Hv, Hc.
  cbn [negb andb lastCaptureTimeRef setDetection]. rewrite Hl, Hurl.
  destruct (Z.ltb_spec CAPTURE_COOLDOWN (now_check env - lastCaptureTimeRef st)); [|lia].
  cbn [capturedFrames lastCaptureTimeRef setCapturedFrames set_lastCaptureTimeRef
       setDetection set_previousFrameRef].
  rewrite Hf. split; reflexivity.
Qed.

Lemma tick_captures_witness :
  let st := run [Toggle true; Tick (tickAt 1 1 flame 1700000000000)] initialState in
  let env := tickAt 1 1 flame 1700000000100 in
  sampled env = true /\
  capturedFrames (detectMotion env st) = [mkCaptured sampleUrl 1700000000100] /\
  lastCaptureTimeRef (detectMotion env st) = 1700000000100.
Proof.
  cbv zeta. split; [reflexivity|].
  apply (tick_captures (tickAt 1 1 flame 1700000000100)
           (run [Toggle true; Tick (tickAt 1 1 flame 1700000000000)] initialState)
           (getImageData (tickAt 1 1 flame 1700000000000)));
    [reflexivity | reflexivity | vm_compute; reflexivity
    | vm_compute; reflexivity | reflexivity].
Defined.

(** ** Stopping and restarting *)

Lemma stopCamera_lastCaptureTimeRef (video : bool) (st : AppState) :
  lastCaptureTimeRef (stopCamera video st) = lastCaptureTimeRef st.
Proof.
  destruct st as [prevF actx [osc|] [] [] last det err frames sens];
    destruct video; reflexivity.
Qed.

(** While every tick reads the clock within the cooldown of the last
    stamp, an empty store stays empty and the stamp stays put. *)
Lemma run_within_cooldown (evs : list Event) :
  forall st,
    ticksBefore (lastCaptureTimeRef st + CAPTURE_COOLDOWN) evs ->
    capturedFrames st = [] ->
    capturedFrames (run evs st) = [] /\
    lastCaptureTimeRef (run evs st) = lastCaptureTimeRef st.
Proof.
  unfold ticksBefore.
  induction evs as [|ev evs IH]; intros st Hearly Hempty; [auto|].
  rewrite run_cons. inversion Hearly as [|? ? Hev Hrest]; subst.
  assert (Hstep : capturedFrames (handle ev st) = [] /\
                  lastCaptureTimeRef (handle ev st) = lastCaptureTimeRef st).
  { destruct ev as [granted|env|v]; simpl.
    - destruct (toggleDetection_store granted st) as (Hl & [Hf|Hf]);
        rewrite Hl, Hf; auto.
    - destruct (detectionIntervalRef st); [|auto].
      destruct (detectMotion_store env st) as [[-> ->]|(_ & _ & Hgap & _)];
        [auto|lia].
    - auto. }
  destruct Hstep as [Hf Hl]. rewrite <- Hl. apply IH; [|exact Hf].
  rewrite Hl. exact Hrest.
Qed.

(** C10: stopping monitoring leaves the last-capture timestamp as it is,
    so the cooldown carries over: after the stop, whatever follows
    (a restart, slider moves, ticks), as long as every tick reads the clock
    no later than 1000 ms after the previous session's last capture, no
    frame is captured and the timestamp does not move. *)
Theorem cooldown_survives_restart (st : AppState) (granted : bool) (evs : list Event) :
  isActive (detection st) = true ->
  (forall video, lastCaptureTimeRef (stopCamera video st) = lastCaptureTimeRef st) /\
  lastCaptureTimeRef (toggleDetection granted st) = lastCaptureTimeRef st /\
  (ticksBefore (lastCaptureTimeRef st + CAPTURE_COOLDOWN) evs ->
   capturedFrames (run evs (toggleDetection granted st)) = [] /\
   lastCaptureTimeRef (run evs (toggleDetection granted st)) = lastCaptureTimeRef st).
Proof.
  intros Hactive.
  split; [intros video; apply stopCamera_lastCaptureTimeRef|].
  assert (Hl : lastCaptureTimeRef (toggleDetection granted st) = lastCaptureTimeRef st)
    by apply toggleDetection_store.
  split; [exact Hl|]. intros Hearly. rewrite <- Hl.
  apply run_within_cooldown; [rewrite Hl; exact Hearly|].
  unfold toggleDetection. rewrite Hactive. reflexivity.
Qed.

Lemma cooldown_survives_restart_witness :
  isActive (detection afterCapture) = true /\
  lastCaptureTimeRef afterCapture = 1700000000100 /\
  ticksBefore (lastCaptureTimeRef afterCapture + CAPTURE_COOLDOWN) quickRestart /\
  capturedFrames (run quickRestart (toggleDetection true afterCapture)) = [] /\
  lastCaptureTimeRef (run quickRestart (toggleDetection true afterCapture)) =
    lastCaptureTimeRef afterCapture.
Proof.
  assert (Hearly : ticksBefore (lastCaptureTimeRef afterCapture + CAPTURE_COOLDOWN)
                               quickRestart).
  { unfold ticksBefore, quickRestart. repeat constructor; vm_compute; congruence. }
  split; [vm_compute; reflexivity|]. split; [vm_compute; reflexivity|].
  split; [exact Hearly|].
  exact (proj2 (proj2 (cooldown_survives_restart afterCapture true quickRestart
                         ltac:(vm_compute; reflexivity))) Hearly).
Defined.

(** * The two heuristics against exact arithmetic *)

Lemma percentage_unfold (k n : Z) :
  diffPercentage k n =
    SFmul 53 1024 (SFdiv 53 1024 (binary_normalize 53 1024 k 0 false)
                                 (binary_normalize 53 1024 n 0 false))
          (binary_normalize 53 1024 100 0 false) /\
  firePercentage k n = diffPercentage k n.
Proof. split; reflexivity. Qed.

Lemma motionAtBoundary_checked :
  forallb (fun k => Bool.eqb (motionAtBoundary (Z.of_nat k))
                             (existsb (Z.eqb (Z.of_nat k)) tippedSensitivities))
          (seq 0 101) = true.
Proof. vm_compute. reflexivity. Qed.

Lemma motionAtBoundary_tipped (s : Z) :
  0 <= s <= 100 -> (motionAtBoundary s = true <-> In s tippedSensitivities).
Proof.
  intros Hs. pose proof motionAtBoundary_checked as H.
  rewrite forallb_forall in H.
  specialize (H (Z.to_nat s)). rewrite Z2Nat.id in H by lia.
  assert (Hin : List.In (Z.to_nat s) (seq 0 101)) by (apply in_seq; lia).
  apply H, Bool.eqb_prop in Hin. rewrite Hin, existsb_exists. split.
  - intros (x & Hx & Heq). apply Z.eqb_eq in Heq. subst x. exact Hx.
  - intros Hx. exists s. split; [exact Hx|apply Z.eqb_refl].
Qed.

Section Decided.

Variables k n : Z.
Hypothesis Hk : 0 <= k <= n.
Hypothesis Hn : 0 < n < maxPixels.

Lemma n_small : n < 2 ^ 40.
Proof. exact (proj2 Hn). Qed.

Lemma n_double : 0 < n < 2 ^ 53.
Proof. unfold maxPixels in Hn. eval_pows. lia. Qed.

(** The motion comparison, decided by integer arithmetic. *)
Lemma motion_decided (s : Z) :
  0 <= s <= 100 ->
  Number.gt (diffPercentage k n) (motionThreshold s) =
  if (100 - s) * n <? 300 * k then true
  else if 300 * k <? (100 - s) * n then false
  else motionAtBoundary s.
Proof.
  intros Hs. unfold Number.gt, motionAtBoundary.
  rewrite !(proj1 (percentage_unfold _ _)).
  destruct (Z.eq_dec k 0) as [->|Hk0].
  { rewrite percentage_none by exact n_double.
    destruct (Z.ltb_spec ((100 - s) * n) (300 * 0)); [nia|].
    destruct (Z.eq_dec s 100) as [->|Hs100].
    - rewrite threshold_100. reflexivity.
    - destruct (threshold_spec s ltac:(lia)) as (mt & y & -> & _).
      destruct (Z.ltb_spec (300 * 0) ((100 - s) * n)); [reflexivity|nia]. }
  destruct (Z.eq_dec s 100) as [->|Hs100].
  { rewrite threshold_100.
    destruct (percentage_spec k n ltac:(lia) ltac:(lia) (proj2 n_double))
      as (P & xp & -> & _).
    destruct (Z.ltb_spec ((100 - 100) * n) (300 * k)); [reflexivity|lia]. }
  destruct (threshold_spec s ltac:(lia)) as (mt & y & Hthr & Hmt & Hy & Herr).
  rewrite Hthr.
  destruct (Z.ltb_spec ((100 - s) * n) (300 * k)) as [Habove|Hle].
  { apply (decide_above k n ltac:(lia) n_small (100 - s) 3 mt y); auto; lia. }
  destruct (Z.ltb_spec (300 * k) ((100 - s) * n)) as [Hbelow|Hge].
  { apply (decide_below k n ltac:(lia) n_small (100 - s) 3 mt y); auto; lia. }
  assert (Heq : 300 * k = (100 - s) * n) by lia.
  rewrite <- (percentage_scale k n 300) by (eval_pows; unfold maxPixels in Hn; lia).
  rewrite <- (percentage_scale (100 - s) 300 n)
    by (eval_pows; unfold maxPixels in Hn; lia).
  replace (k * 300) with ((100 - s) * n) by lia.
  replace (n * 300) with (300 * n) by lia. reflexivity.
Qed.

(** The fire comparison, decided by integer arithmetic. *)
Lemma fire_decided :
  Number.gt (firePercentage k n) (Number.of_Z 1) = (n <? 100 * k).
Proof.
  unfold Number.gt. rewrite (proj2 (percentage_unfold _ _)), (proj1 (percentage_unfold _ _)).
  change (Number.of_Z 1) with (fin53 (2 ^ 52) (- (52))).
  destruct (Z.eq_dec k 0) as [->|Hk0].
  { rewrite percentage_none by exact n_double.
    destruct (Z.ltb_spec n (100 * 0)); [lia|reflexivity]. }
  destruct (Z.ltb_spec n (100 * k)) as [Habove|Hle].
  { apply (decide_above k n ltac:(lia) n_small 1 1 (2 ^ 52) 52); auto; eval_pows; lia. }
  destruct (Z.eq_dec n (100 * k)) as [->|Hne].
  - pose proof (percentage_scale 1 100 k ltac:(lia) ltac:(lia) ltac:(lia)
                  ltac:(eval_pows; unfold maxPixels in Hn; lia)) as E.
    rewrite Z.mul_1_l in E. rewrite E. reflexivity.
  - apply (decide_below k n ltac:(lia) n_small 1 1 (2 ^ 52) 52); auto; eval_pows; lia.
Qed.

End Decided.

(** ** Exact percentages as integer inequalities *)

Lemma above_threshold_iff (s k n : Z) :
  0 < n -> ((exactThreshold s < percentOf k n)%Q <-> (100 - s) * n < 300 * k).
Proof.
  intros Hn. unfold Qlt, exactThreshold, percentOf. cbn [Qnum Qden].
  rewrite Z2Pos.id by exact Hn. lia.
Qed.

Lemma at_threshold_iff (s k n : Z) :
  0 < n -> ((percentOf k n == exactThreshold s)%Q <-> 300 * k = (100 - s) * n).
Proof.
  intros Hn. unfold Qeq, exactThreshold, percentOf. cbn [Qnum Qden].
  rewrite Z2Pos.id by exact Hn. lia.
Qed.

Lemma above_one_percent_iff (k n : Z) :
  0 < n -> ((1 < percentOf k n)%Q <-> n < 100 * k).
Proof.
  intros Hn. unfold Qlt, percentOf. cbn [Qnum Qden].
  rewrite Z2Pos.id by exact Hn. lia.
Qed.

Lemma wf_imageb_sound (img : ImageData) : wf_imageb img = true -> wf_image img.
Proof.
  unfold wf_imageb, wf_image. rewrite !andb_true_iff.
  intros (((Hw & Hh) & Hlen) & Hall).
  apply Z.ltb_lt in Hw, Hh. apply Nat.eqb_eq in Hlen.
  repeat split; try assumption.
  apply List.Forall_forall. intros v Hv.
  rewrite forallb_forall in Hall. specialize (Hall v Hv). lia.
Qed.

Lemma wf_image_total (img : ImageData) : wf_image img -> 0 < totalPixelCount img.
Proof. intros (Hw & Hh & _). unfold totalPixelCount. nia. Qed.

Lemma countPixels_total (P : nat -> bool) (n : Z) :
  0 <= n -> 0 <= countPixels P (Z.to_nat n) <= n.
Proof. intros Hn. pose proof (countPixels_bounds P (Z.to_nat n)). lia. Qed.

(** ** Motion heuristic *)

(** C1, as stated, fails where the exact percentage equals the exact
    threshold: seven changed pixels out of a hundred at sensitivity 79
    make exactly 7% against a threshold of exactly 7, so the percentage is
    not strictly greater; in double precision [7 / 100 * 100] is
    7.000000000000001 and the heuristic answers true. *)
Lemma motion_tipped_by_rounding :
  wf_image sevenWhite /\ wf_image blackFrame /\
  sameDimensions sevenWhite blackFrame /\
  changedCount sevenWhite blackFrame = 7 /\
  totalPixelCount sevenWhite = 100 /\
  motionHeuristic sevenWhite blackFrame 79 = true /\
  ~ (exactThreshold 79 <
     percentOf (changedCount sevenWhite blackFrame) (totalPixelCount sevenWhite))%Q.
Proof.
  split; [apply wf_imageb_sound; vm_compute; reflexivity|].
  split; [apply wf_imageb_sound; vm_compute; reflexivity|].
  split; [split; reflexivity|].
  split; [vm_compute; reflexivity|].
  split; [reflexivity|].
  split; [vm_compute; reflexivity|].
  vm_compute. intros H. discriminate H.
Qed.

(** C1, amended: for buffers of identical dimensions (fewer than 2^40
    pixels) and a sensitivity in [0,100], the motion heuristic returns true
    if and only if the percentage of pixel positions whose
    |dR| + |dG| + |dB| (alpha ignored) exceeds 100 is strictly greater than
    (100 - sensitivity) / 3, or equals it exactly while the sensitivity is
    one of the twenty values at which double-precision rounding tips the
    comparison (6, 9, 16, 24, 27, 36, 48, 53, 58, 62, 68, 74, 79, 81, 84,
    87, 92, 96, 98, 99). *)
Theorem motionHeuristic_exact (cur prev : ImageData) (s : Z) :
  wf_image cur -> wf_image prev -> sameDimensions cur prev ->
  totalPixelCount cur < maxPixels ->
  0 <= s <= 100 ->
  (motionHeuristic cur prev s = true <->
   (exactThreshold s < percentOf (changedCount cur prev) (totalPixelCount cur))%Q \/
   ((percentOf (changedCount cur prev) (totalPixelCount cur) == exactThreshold s)%Q /\
    In s tippedSensitivities)).
Proof.
  intros Hcur _ _ Hmax Hs.
  pose proof (wf_image_total cur Hcur) as Hn.
  rewrite (motionHeuristic_counts cur prev s (wf_image_length cur Hcur)).
  pose proof (countPixels_total (isChangedPixel (data cur) (data prev))
                (totalPixelCount cur) ltac:(lia)) as Hk.
  fold (changedCount cur prev) in Hk.
  rewrite (motion_decided _ _ Hk (conj Hn Hmax) s Hs).
  rewrite above_threshold_iff, at_threshold_iff by exact Hn.
  rewrite <- (motionAtBoundary_tipped s Hs).
  destruct (Z.ltb_spec ((100 - s) * totalPixelCount cur) (300 * changedCount cur prev));
    [intuition lia|].
  destruct (Z.ltb_spec (300 * changedCount cur prev) ((100 - s) * totalPixelCount cur));
    [intuition (try discriminate; lia)|].
  intuition lia.
Qed.

Lemma motionHeuristic_exact_witness :
  wf_image sevenWhite /\ wf_image blackFrame /\
  totalPixelCount sevenWhite < maxPixels /\
  (motionHeuristic sevenWhite blackFrame 79 = true <->
   (exactThreshold 79 <
    percentOf (changedCount sevenWhite blackFrame) (totalPixelCount sevenWhite))%Q \/
   ((percentOf (changedCount sevenWhite blackFrame) (totalPixelCount sevenWhite)
     == exactThreshold 79)%Q /\
    In 79 tippedSensitivities)).
Proof.
  assert (H1 : wf_image sevenWhite) by (apply wf_imageb_sound; vm_compute; reflexivity).
  assert (H2 : wf_image blackFrame) by (apply wf_imageb_sound; vm_compute; reflexivity).
  assert (H3 : totalPixelCount sevenWhite < maxPixels) by (vm_compute; reflexivity).
  split; [exact H1|]. split; [exact H2|]. split; [exact H3|].
  apply (motionHeuristic_exact sevenWhite blackFrame 79 H1 H2);
    [split; reflexivity | exact H3 | lia].
Defined.

(** ** Fire heuristic *)

Lemma filter_none {A : Type} (P : A -> bool) (l : list A) :
  (forall x, List.In x l -> P x = false) -> List.filter P l = [].
Proof.
  induction l as [|x l IH]; intros H; [reflexivity|].
  cbn [List.filter]. rewrite (H x) by (left; reflexivity).
  apply IH. intros y Hy. apply H. right. exact Hy.
Qed.

Lemma countPixels_none (P : nat -> bool) (n : nat) :
  (forall p, (p < n)%nat -> P p = false) -> countPixels P n = 0.
Proof.
  intros H. unfold countPixels. rewrite filter_none; [reflexivity|].
  intros p Hp. apply in_seq in Hp. apply H. lia.
Qed.

Lemma length_uniform (n : nat) (r g b a : Z) :
  length (concat (replicate n [r; g; b; a])) = (4 * n)%nat.
Proof. induction n as [|n IH]; [reflexivity|]. cbn [replicate concat]. rewrite length_app, IH. simpl. lia. Qed.

Lemma lookup_uniform (n : nat) (r g b a : Z) :
  forall p j, (p < n)%nat -> (j < 4)%nat ->
  concat (replicate n [r; g; b; a]) !! (4 * p + j)%nat = [r; g; b; a] !! j.
Proof.
  induction n as [|n IH]; intros p j Hp Hj; [lia|].
  cbn [replicate concat]. destruct p as [|p].
  - rewrite lookup_app_l by (simpl; lia). f_equal.
  - rewrite lookup_app_r by (simpl; lia).
    replace (4 * S p + j - length [r; g; b; a])%nat with (4 * p + j)%nat by (simpl; lia).
    apply IH; lia.
Qed.

(** A uniform buffer whose colour is not fire-like has no fire pixel. *)
Lemma fire_loop_uniform (n : nat) (r g b a : Z) :
  (200 <? r) && (g <? 140) && (b <? 40) = false ->
  let d := concat (replicate n [r; g; b; a]) in
  fire_loop (length d) d 0 0 = 0.
Proof.
  intros Hcol d. subst d.
  rewrite (fire_loop_counts _ n (length_uniform n r g b a)).
  apply countPixels_none. intros p Hp. unfold isFirePixel.
  replace (4 * p)%nat with (4 * p + 0)%nat at 1 by lia.
  rewrite !lookup_uniform by lia. exact Hcol.
Qed.

Lemma no_fire_pixel_no_fire (total : Z) :
  Number.gt (firePercentage 0 total) (Number.of_Z 1) = false.
Proof.
  unfold Number.gt. rewrite (proj2 (percentage_unfold _ _)), (proj1 (percentage_unfold _ _)).
  destruct (percentage_zero total) as [[sg ->]| ->]; reflexivity.
Qed.

(** C2, as stated, fails at exactly 1%: one flame-coloured pixel out of a
    hundred satisfies "at least 1% of pixels", and [detectFire] returns
    false. *)
Lemma one_percent_is_not_fire :
  wf_image oneFlame /\
  fireColoredCount oneFlame = 1 /\ totalPixelCount oneFlame = 100 /\
  (1 <= percentOf (fireColoredCount oneFlame) (totalPixelCount oneFlame))%Q /\
  detectFire oneFlame = false.
Proof.
  split; [apply wf_imageb_sound; vm_compute; reflexivity|].
  split; [vm_compute; reflexivity|]. split; [reflexivity|].
  split; [vm_compute; intros H; discriminate H|].
  vm_compute. reflexivity.
Qed.

(** C2, amended: on a buffer of fewer than 2^40 pixels the fire heuristic
    returns true exactly when the fraction of pixels with red > 200,
    green < 140 and blue < 40 strictly exceeds 1% of the pixel count (so it
    is true whenever more than 1% of the pixels satisfy the predicate, and
    false at exactly 1%); and it returns false for every all-black buffer,
    every all-white buffer and every empty buffer, of any size. *)
Theorem detectFire_exact :
  (forall img : ImageData,
     wf_image img -> totalPixelCount img < maxPixels ->
     (detectFire img = true <->
      (1 < percentOf (fireColoredCount img) (totalPixelCount img))%Q)) /\
  (forall w h a : Z, detectFire (uniformImage w h 0 0 0 a) = false) /\
  (forall w h a : Z, detectFire (uniformImage w h 255 255 255 a) = false) /\
  (forall w h : Z, detectFire (mkImageData w h []) = false).
Proof.
  split; [|split; [|split]].
  - intros img Hwf Hmax.
    pose proof (wf_image_total img Hwf) as Hn.
    rewrite (detectFire_counts img (wf_image_length img Hwf)).
    pose proof (countPixels_total (isFirePixel (data img))
                  (totalPixelCount img) ltac:(lia)) as Hk.
    fold (fireColoredCount img) in Hk.
    rewrite (fire_decided _ _ Hk (conj Hn Hmax)).
    rewrite above_one_percent_iff by exact Hn. apply Z.ltb_lt.
  - intros w h a. unfold detectFire, uniformImage. cbn [data width height].
    rewrite (fire_loop_uniform _ 0 0 0 a) by reflexivity.
    apply no_fire_pixel_no_fire.
  - intros w h a. unfold detectFire, uniformImage. cbn [data width height].
    rewrite (fire_loop_uniform _ 255 255 255 a) by reflexivity.
    apply no_fire_pixel_no_fire.
  - intros w h. unfold detectFire. cbn [data width height length fire_loop].
    apply no_fire_pixel_no_fire.
Qed.

Lemma detectFire_exact_witness :
  wf_image oneFlame /\ totalPixelCount oneFlame < maxPixels /\
  (detectFire oneFlame = true <->
   (1 < percentOf (fireColoredCount oneFlame) (totalPixelCount oneFlame))%Q).
Proof.
  assert (H1 : wf_image oneFlame) by (apply wf_imageb_sound; vm_compute; reflexivity).
  assert (H2 : totalPixelCount oneFlame < maxPixels) by (vm_compute; reflexivity).
  split; [exact H1|]. split; [exact H2|].
  exact (proj1 detectFire_exact oneFlame H1 H2).
Defined.

(** ** The two ends of the sensitivity range *)

(** C3, as stated, fails at sensitivity 100: the two one-pixel buffers
    differ (red 10 against red 0), yet no pixel differs by more than 100 and
    the heuristic answers false. *)
Lemma small_difference_is_not_motion :
  let cur := uniformImage 1 1 10 0 0 255 in
  let prev := uniformImage 1 1 0 0 0 255 in
  wf_image cur /\ wf_image prev /\ sameDimensions cur prev /\
  someDifference cur prev /\
  motionHeuristic cur prev 100 = false.
Proof.
  cbv zeta.
  split; [apply wf_imageb_sound; vm_compute; reflexivity|].
  split; [apply wf_imageb_sound; vm_compute; reflexivity|].
  split; [split; reflexivity|].
  split; [exists 0%nat, 0%nat; repeat split; [vm_compute; lia..|discriminate]|].
  vm_compute. reflexivity.
Qed.

(** C3, amended: at sensitivity 100 the threshold is zero and the motion
    heuristic returns true exactly when at least one pixel position has
    |dR| + |dG| + |dB| > 100; at sensitivity 0 it returns true exactly when
    more than one third of the pixel positions have (the double threshold
    being 33.333333333333336).  Buffers of fewer than 2^40 pixels. *)
Theorem motion_extremes (cur prev : ImageData) :
  wf_image cur -> wf_image prev -> sameDimensions cur prev ->
  totalPixelCount cur < maxPixels ->
  motionThreshold 100 = S754_zero false /\
  (motionHeuristic cur prev 100 = true <-> 0 < changedCount cur prev) /\
  motionThreshold 0 = fin53 4691249611844267 (-47) /\
  (motionHeuristic cur prev 0 = true <->
   totalPixelCount cur < 3 * changedCount cur prev).
Proof.
  intros Hcur _ _ Hmax.
  pose proof (wf_image_total cur Hcur) as Hn.
  pose proof (countPixels_total (isChangedPixel (data cur) (data prev))
                (totalPixelCount cur) ltac:(lia)) as Hk.
  fold (changedCount cur prev) in Hk.
  split; [reflexivity|]. split; [|split; [reflexivity|]].
  - rewrite (motionHeuristic_counts cur prev 100 (wf_image_length cur Hcur)).
    rewrite (motion_decided _ _ Hk (conj Hn Hmax) 100 ltac:(lia)).
    change (motionAtBoundary 100) with false.
    destruct (Z.ltb_spec ((100 - 100) * totalPixelCount cur) (300 * changedCount cur prev));
      [intuition lia|].
    destruct (Z.ltb_spec (300 * changedCount cur prev) ((100 - 100) * totalPixelCount cur));
      intuition (try discriminate; lia).
  - rewrite (motionHeuristic_counts cur prev 0 (wf_image_length cur Hcur)).
    rewrite (motion_decided _ _ Hk (conj Hn Hmax) 0 ltac:(lia)).
    change (motionAtBoundary 0) with false.
    destruct (Z.ltb_spec ((100 - 0) * totalPixelCount cur) (300 * changedCount cur prev));
      [intuition lia|].
    destruct (Z.ltb_spec (300 * changedCount cur prev) ((100 - 0) * totalPixelCount cur));
      intuition (try discriminate; lia).
Qed.

Lemma motion_extremes_witness :
  wf_image sevenWhite /\ wf_image blackFrame /\
  totalPixelCount sevenWhite < maxPixels /\
  (motionHeuristic sevenWhite blackFrame 100 = true <->
   0 < changedCount sevenWhite blackFrame) /\
  (motionHeuristic sevenWhite blackFrame 0 = true <->
   totalPixelCount sevenWhite < 3 * changedCount sevenWhite blackFrame).
Proof.
  assert (H1 : wf_image sevenWhite) by (apply wf_imageb_sound; vm_compute; reflexivity).
  assert (H2 : wf_image blackFrame) by (apply wf_imageb_sound; vm_compute; reflexivity).
  assert (H3 : totalPixelCount sevenWhite < maxPixels) by (vm_compute; reflexivity).
  destruct (motion_extremes sevenWhite blackFrame H1 H2 (conj eq_refl eq_refl) H3)
    as (_ & Hfull & _ & Hnone).
  split; [exact H1|]. split; [exact H2|]. split; [exact H3|].
  split; [exact Hfull|exact Hnone].
Defined.

(** * Further properties of the heuristics *)

Lemma diff_loop_quiet (cur prev : list Z) :
  (forall i, diff_test cur prev i = false) ->
  forall fuel i acc, diff_loop fuel cur prev i acc = acc.
Proof.
  intros Hq. induction fuel as [|fuel IH]; intros i acc; [reflexivity|].
  cbn [diff_loop]. destruct (i <? length cur)%nat; [|reflexivity].
  rewrite Hq. apply IH.
Qed.

Lemma diff_test_same (d : list Z) (i : nat) : diff_test d d i = false.
Proof.
  unfold diff_test, pixel_diff.
  destruct (d !! i) as [x|], (d !! (i + 1)%nat) as [y|], (d !! (i + 2)%nat) as [z|];
    cbn [js_abs_sub js_add js_gt]; try reflexivity.
  rewrite !Z.sub_diag. reflexivity.
Qed.

Lemma no_change_no_motion (total s : Z) :
  0 <= s <= 100 ->
  Number.gt (diffPercentage 0 total) (motionThreshold s) = false.
Proof.
  intros Hs. unfold Number.gt. rewrite (proj1 (percentage_unfold _ _)).
  destruct (Z.eq_dec s 100) as [->|Hne].
  - rewrite threshold_100.
    destruct (percentage_zero total) as [[sg ->]| ->]; reflexivity.
  - destruct (threshold_spec s ltac:(lia)) as (mt & y & -> & _).
    destruct (percentage_zero total) as [[sg ->]| ->]; reflexivity.
Qed.

Lemma same_data_no_motion (cur prev : ImageData) (s : Z) :
  data cur = data prev -> 0 <= s <= 100 ->
  motionHeuristic cur prev s = false.
Proof.
  intros Hd Hs. unfold motionHeuristic. rewrite <- Hd.
  rewrite diff_loop_quiet by apply diff_test_same.
  apply no_change_no_motion, Hs.
Qed.

(** X1: two buffers holding the same samples never report motion, at any
    sensitivity of the slider's range and whatever their size. *)
Theorem identical_buffers_no_motion (cur prev : ImageData) (s : Z) :
  data cur = data prev -> 0 <= s <= 100 ->
  motionHeuristic cur prev s = false.
Proof.
  intros Hd Hs. unfold motionHeuristic. rewrite <- Hd.
  rewrite diff_loop_quiet by apply diff_test_same.
  apply no_change_no_motion, Hs.
Qed.

Lemma identical_buffers_no_motion_witness :
  motionHeuristic sevenWhite sevenWhite 100 = false.
Proof.
  apply (identical_buffers_no_motion sevenWhite sevenWhite 100); [reflexivity|lia].
Defined.

Lemma pixel_diff_sym (cur prev : list Z) (i : nat) :
  pixel_diff cur prev i = pixel_diff prev cur i.
Proof.
  unfold pixel_diff.
  destruct (cur !! i), (cur !! (i + 1)%nat), (cur !! (i + 2)%nat),
           (prev !! i), (prev !! (i + 1)%nat), (prev !! (i + 2)%nat);
    cbn [js_abs_sub js_add]; try reflexivity.
  f_equal. lia.
Qed.

Lemma diff_loop_sym (cur prev : list Z) :
  length cur = length prev ->
  forall fuel i acc, diff_loop fuel cur prev i acc = diff_loop fuel prev cur i acc.
Proof.
  intros Hlen. induction fuel as [|fuel IH]; intros i acc; [reflexivity|].
  cbn [diff_loop]. rewrite <- Hlen. unfold diff_test.
  rewrite (pixel_diff_sym cur prev i), IH. reflexivity.
Qed.

(** X2: the motion heuristic does not depend on which of the two buffers
    is the current one and which the previous one, when they have the same
    dimensions and as many samples. *)
Theorem motionHeuristic_symmetric (cur prev : ImageData) (s : Z) :
  sameDimensions cur prev -> length (data cur) = length (data prev) ->
  motionHeuristic cur prev s = motionHeuristic prev cur s.
Proof.
  intros [Hw Hh] Hlen. unfold motionHeuristic.
  rewrite (diff_loop_sym _ _ Hlen), <- Hlen, Hw, Hh. reflexivity.
Qed.

Lemma motionHeuristic_symmetric_witness :
  sameDimensions sevenWhite blackFrame /\
  motionHeuristic sevenWhite blackFrame 79 = motionHeuristic blackFrame sevenWhite 79.
Proof.
  split; [split; reflexivity|].
  apply (motionHeuristic_symmetric sevenWhite blackFrame 79);
    [split; reflexivity | vm_compute; reflexivity].
Defined.

(** X3: raising the sensitivity never turns motion off: what is reported
    at sensitivity [s] is reported at every higher sensitivity (buffers of
    fewer than 2^40 pixels, sensitivities in [0,100]). *)
Theorem motionHeuristic_monotone (cur prev : ImageData) (s s' : Z) :
  wf_image cur -> totalPixelCount cur < maxPixels ->
  0 <= s -> s <= s' -> s' <= 100 ->
  motionHeuristic cur prev s = true -> motionHeuristic cur prev s' = true.
Proof.
  intros Hcur Hmax H0 Hss H100.
  pose proof (wf_image_total cur Hcur) as Hn.
  rewrite !(motionHeuristic_counts cur prev _ (wf_image_length cur Hcur)).
  pose proof (countPixels_total (isChangedPixel (data cur) (data prev))
                (totalPixelCount cur) ltac:(lia)) as Hk.
  fold (changedCount cur prev) in Hk.
  rewrite !(motion_decided _ _ Hk (conj Hn Hmax)) by lia.
  destruct (Z.eq_dec s s') as [->|Hne]; [auto|].
  set (n := totalPixelCount cur) in *. set (k := changedCount cur prev) in *.
  assert (Hlt : (100 - s') * n < (100 - s) * n) by nia.
  destruct (Z.ltb_spec ((100 - s) * n) (300 * k)).
  - intros _. destruct (Z.ltb_spec ((100 - s') * n) (300 * k)); [reflexivity|lia].
  - destruct (Z.ltb_spec (300 * k) ((100 - s) * n)); [discriminate|].
    intros _. destruct (Z.ltb_spec ((100 - s') * n) (300 * k)); [reflexivity|lia].
Qed.

Lemma motionHeuristic_monotone_witness :
  motionHeuristic sevenWhite blackFrame 79 = true /\
  motionHeuristic sevenWhite blackFrame 90 = true.
Proof.
  assert (H : motionHeuristic sevenWhite blackFrame 79 = true) by (vm_compute; reflexivity).
  split; [exact H|].
  apply (motionHeuristic_monotone sevenWhite blackFrame 79 90);
    [apply wf_imageb_sound; vm_compute; reflexivity
    | vm_compute; reflexivity | lia | lia | lia | exact H].
Defined.

(** X4: once more than a third of the pixel positions changed, motion is
    reported at every sensitivity in [0,100] (buffers of fewer than 2^40
    pixels). *)
Theorem third_changed_always_motion (cur prev : ImageData) (s : Z) :
  wf_image cur -> totalPixelCount cur < maxPixels ->
  totalPixelCount cur < 3 * changedCount cur prev ->
  0 <= s <= 100 ->
  motionHeuristic cur prev s = true.
Proof.
  intros Hcur Hmax Hthird Hs.
  pose proof (wf_image_total cur Hcur) as Hn.
  rewrite (motionHeuristic_counts cur prev _ (wf_image_length cur Hcur)).
  pose proof (countPixels_total (isChangedPixel (data cur) (data prev))
                (totalPixelCount cur) ltac:(lia)) as Hk.
  fold (changedCount cur prev) in Hk.
  rewrite (motion_decided _ _ Hk (conj Hn Hmax)) by lia.
  destruct (Z.ltb_spec ((100 - s) * totalPixelCount cur) (300 * changedCount cur prev));
    [reflexivity|nia].
Qed.

Lemma third_changed_always_motion_witness :
  let cur := uniformImage 2 2 255 255 255 255 in
  let prev := uniformImage 2 2 0 0 0 255 in
  totalPixelCount cur < 3 * changedCount cur prev /\
  motionHeuristic cur prev 0 = true.
Proof.
  cbv zeta.
  assert (H : totalPixelCount (uniformImage 2 2 255 255 255 255)
              < 3 * changedCount (uniformImage 2 2 255 255 255 255)
                                 (uniformImage 2 2 0 0 0 255))
    by (vm_compute; reflexivity).
  split; [exact H|].
  apply (third_changed_always_motion _ _ 0);
    [apply wf_imageb_sound; vm_compute; reflexivity
    | vm_compute; reflexivity | exact H | lia].
Defined.

(** X5: a heuristic that answers true has found something: [detectFire]
    is true only on a buffer with at least one fire-coloured pixel, and the
    motion heuristic (sensitivity in [0,100]) only when at least one pixel
    position changed; this holds for buffers of any size. *)
Theorem detection_needs_pixel :
  (forall img : ImageData,
     wf_image img -> detectFire img = true -> 0 < fireColoredCount img) /\
  (forall (cur prev : ImageData) (s : Z),
     wf_image cur -> 0 <= s <= 100 ->
     motionHeuristic cur prev s = true -> 0 < changedCount cur prev).
Proof.
  split.
  - intros img Hwf.
    rewrite (detectFire_counts img (wf_image_length img Hwf)).
    pose proof (wf_image_total img Hwf) as Hn.
    pose proof (countPixels_total (isFirePixel (data img))
                  (totalPixelCount img) ltac:(lia)) as Hk.
    fold (fireColoredCount img) in Hk.
    destruct (Z.eq_dec (fireColoredCount img) 0) as [->|Hne]; [|lia].
    rewrite no_fire_pixel_no_fire. discriminate.
  - intros cur prev s Hwf Hs.
    rewrite (motionHeuristic_counts cur prev s (wf_image_length cur Hwf)).
    pose proof (wf_image_total cur Hwf) as Hn.
    pose proof (countPixels_total (isChangedPixel (data cur) (data prev))
                  (totalPixelCount cur) ltac:(lia)) as Hk.
    fold (changedCount cur prev) in Hk.
    destruct (Z.eq_dec (changedCount cur prev) 0) as [->|Hne]; [|lia].
    rewrite no_change_no_motion by exact Hs. discriminate.
Qed.

Lemma detection_needs_pixel_witness :
  detectFire opaqueFlame = true /\ 0 < fireColoredCount opaqueFlame /\
  motionHeuristic sevenWhite blackFrame 79 = true /\
  0 < changedCount sevenWhite blackFrame.
Proof.
  assert (H1 : detectFire opaqueFlame = true) by (vm_compute; reflexivity).
  assert (H2 : motionHeuristic sevenWhite blackFrame 79 = true) by (vm_compute; reflexivity).
  split; [exact H1|].
  split; [apply (proj1 detection_needs_pixel opaqueFlame);
          [apply wf_imageb_sound; vm_compute; reflexivity | exact H1]|].
  split; [exact H2|].
  apply (proj2 detection_needs_pixel sevenWhite blackFrame 79);
    [apply wf_imageb_sound; vm_compute; reflexivity | lia | exact H2].
Defined.

Lemma fire_test_colours (d d' : list Z) (p : nat) :
  sameColours d d' -> fire_test d (4 * p) = fire_test d' (4 * p).
Proof.
  intros [_ H]. unfold fire_test.
  pose proof (H p 0%nat ltac:(lia)) as H0. rewrite Nat.add_0_r in H0.
  rewrite H0, (H p 1%nat), (H p 2%nat) by lia. reflexivity.
Qed.

Lemma fire_loop_colours (d d' : list Z) :
  sameColours d d' ->
  forall fuel p acc, fire_loop fuel d (4 * p) acc = fire_loop fuel d' (4 * p) acc.
Proof.
  intros Hc. induction fuel as [|fuel IH]; intros p acc; [reflexivity|].
  cbn [fire_loop]. rewrite <- (proj1 Hc), (fire_test_colours d d' p Hc).
  replace (4 * p + 4)%nat with (4 * S p)%nat by lia.
  rewrite IH. reflexivity.
Qed.

Lemma sameColours_uniform (w h r g b a a' : Z) :
  sameColours (data (uniformImage w h r g b a)) (data (uniformImage w h r g b a')).
Proof.
  unfold uniformImage. cbn [data]. set (n := Z.to_nat (w * h)).
  split; [rewrite !length_uniform; reflexivity|].
  intros p j Hj. destruct (Nat.lt_ge_cases p n) as [Hp|Hp].
  - rewrite !lookup_uniform by lia.
    destruct j as [|[|[|j]]]; try lia; reflexivity.
  - rewrite !(lookup_ge_None_2 _ (4 * p + j)) by (rewrite length_uniform; lia).
    reflexivity.
Qed.

(** X6: the fire heuristic does not look at alpha: two buffers of the
    same dimensions that agree on every red, green and blue sample get the
    same answer. *)
Theorem detectFire_ignores_alpha (a b : ImageData) :
  sameDimensions a b -> sameColours (data a) (data b) ->
  detectFire a = detectFire b.
Proof.
  intros [Hw Hh] Hc. unfold detectFire.
  pose proof (fire_loop_colours _ _ Hc (length (data a)) 0 0) as H.
  change (4 * 0)%nat with 0%nat in H. rewrite H, (proj1 Hc), Hw, Hh. reflexivity.
Qed.

Lemma detectFire_ignores_alpha_witness :
  sameColours (data opaqueFlame) (data clearFlame) /\
  detectFire opaqueFlame = detectFire clearFlame.
Proof.
  assert (H : sameColours (data opaqueFlame) (data clearFlame))
    by apply sameColours_uniform.
  split; [exact H|].
  apply (detectFire_ignores_alpha opaqueFlame clearFlame); [split; reflexivity|exact H].
Defined.

Lemma diff_test_colours (cur cur' prev prev' : list Z) (p : nat) :
  sameColours cur cur' -> sameColours prev prev' ->
  diff_test cur prev (4 * p) = diff_test cur' prev' (4 * p).
Proof.
  intros [_ Hc] [_ Hp]. unfold diff_test, pixel_diff.
  pose proof (Hc p 0%nat ltac:(lia)) as Hc0. rewrite Nat.add_0_r in Hc0.
  pose proof (Hp p 0%nat ltac:(lia)) as Hp0. rewrite Nat.add_0_r in Hp0.
  rewrite Hc0, Hp0, (Hc p 1%nat), (Hc p 2%nat), (Hp p 1%nat), (Hp p 2%nat) by lia.
  reflexivity.
Qed.

Lemma diff_loop_colours (cur cur' prev prev' : list Z) :
  sameColours cur cur' -> sameColours prev prev' ->
  forall fuel p acc,
    diff_loop fuel cur prev (4 * p) acc = diff_loop fuel cur' prev' (4 * p) acc.
Proof.
  intros Hc Hp. induction fuel as [|fuel IH]; intros p acc; [reflexivity|].
  cbn [diff_loop]. rewrite <- (proj1 Hc), (diff_test_colours _ _ _ _ p Hc Hp).
  replace (4 * p + 4)%nat with (4 * S p)%nat by lia.
  rewrite IH. reflexivity.
Qed.

(** X7: nor does the motion heuristic: replacing either buffer by one of
    the same dimensions that differs in alpha samples only leaves the
    answer unchanged. *)
Theorem motionHeuristic_ignores_alpha (cur cur' prev prev' : ImageData) (s : Z) :
  sameDimensions cur cur' ->
  sameColours (data cur) (data cur') -> sameColours (data prev) (data prev') ->
  motionHeuristic cur prev s = motionHeuristic cur' prev' s.
Proof.
  intros [Hw Hh] Hc Hp. unfold motionHeuristic.
  pose proof (diff_loop_colours _ _ _ _ Hc Hp (length (data cur)) 0 0) as H.
  change (4 * 0)%nat with 0%nat in H. rewrite H, (proj1 Hc), Hw, Hh. reflexivity.
Qed.

Lemma motionHeuristic_ignores_alpha_witness :
  sameColours (data opaqueFlame) (data clearFlame) /\
  motionHeuristic opaqueFlame clearFlame 30 = motionHeuristic clearFlame opaqueFlame 30.
Proof.
  assert (H : sameColours (data opaqueFlame) (data clearFlame))
    by apply sameColours_uniform.
  assert (H' : sameColours (data clearFlame) (data opaqueFlame))
    by apply sameColours_uniform.
  split; [exact H|].
  apply (motionHeuristic_ignores_alpha opaqueFlame clearFlame clearFlame opaqueFlame 30);
    [split; reflexivity | exact H | exact H'].
Defined.

(** * Further properties of the alarm and of the session *)

(** X9: [start()] and [stop()] of the alarm are idempotent: a second
    [startAlarm], at whatever time, leaves the whole state as the first one
    made it (one oscillator, the first gate), and a second [stopAlarm]
    changes nothing. *)
Theorem alarm_idempotent :
  (forall (t t' : Q) (st : AppState),
     startAlarm t' (startAlarm t st) = startAlarm t st) /\
  (forall st : AppState, stopAlarm (stopAlarm st) = stopAlarm st).
Proof.
  split.
  - intros t t' st.
    destruct st as [prevF [] [osc|] src itv last det err frames sens]; reflexivity.
  - intros st.
    destruct st as [prevF actx [osc|] src itv last det err frames sens]; reflexivity.
Qed.

(** X10: no gate survives a stop: after [stopAlarm], a [startAlarm] at
    time [t2] builds a new 440 Hz square oscillator gated from [t2], whatever
    was scheduled before; the audio context, once created, is kept. *)
Theorem alarm_restart_fresh (t1 t2 : Q) (st : AppState) :
  oscillatorRef (stopAlarm (startAlarm t1 st)) = None /\
  audioContextRef (stopAlarm (startAlarm t1 st)) = true /\
  oscillatorRef (startAlarm t2 (stopAlarm (startAlarm t1 st))) =
    Some (mkOscillator square 440 (alarmGate t2) true).
Proof.
  destruct st as [prevF [] [osc|] src itv last det err frames sens];
    repeat split.
Qed.



(** X13: the previous frame is never forgotten: once a tick has sampled a
    frame, every later state holds a previous frame, across stops and
    restarts; only the first sampled tick of the component's life skips the
    motion comparison. *)
Theorem previous_frame_persists (evs : list Event) (st : AppState) :
  previousFrameRef st <> None -> previousFrameRef (run evs st) <> None.
Proof.
  revert st. induction evs as [|ev evs IH]; intros st H; [exact H|].
  rewrite run_cons. apply IH.
  destruct ev as [granted|env|v]; cbn [handle].
  - destruct st as [prevF actx [osc|] [] [] last [[] mo fi] err frames sens];
      destruct granted; exact H.
  - destruct (detectionIntervalRef st); [|exact H].
    rewrite detectMotion_previousFrameRef.
    destruct (sampled env); [discriminate|exact H].
  - exact H.
Qed.

Lemma previous_frame_persists_witness :
  previousFrameRef afterCapture <> None /\
  previousFrameRef (run (Toggle true :: quickRestart) afterCapture) <> None.
Proof.
  assert (H : previousFrameRef afterCapture <> None) by (vm_compute; discriminate).
  split; [exact H|].
  apply (previous_frame_persists (Toggle true :: quickRestart) afterCapture H).
Defined.

(** X14: the cleanup of the mount effect calls [stopCamera] and then
    [stopAlarm].  It clears the interval and removes the oscillator, the
    second [stopAlarm] changing nothing; but at unmount [videoRef.current]
    is no longer set, so the guard of line 87 fails and the stream stays
    attached, its tracks running.  The previous frame and the last-capture
    time are left alone. *)
Theorem cleanup_keeps_stream (st : AppState) :
  srcObject (cleanup false st) = srcObject st /\
  srcObject (cleanup true st) = false /\
  (forall video : bool,
     cleanup video st = stopCamera video st /\
     detectionIntervalRef (cleanup video st) = false /\
     oscillatorRef (cleanup video st) = None /\
     previousFrameRef (cleanup video st) = previousFrameRef st /\
     lastCaptureTimeRef (cleanup video st) = lastCaptureTimeRef st).
Proof.
  destruct st as [prevF actx [osc|] [] [] last det err frames sens];
    repeat split; destruct video; reflexivity.
Qed.

(** * Further properties of the capture store and of the assembler *)

Lemma detectMotion_rateInv (t0 : Z) (env : TickEnv) (st : AppState) :
  rateInv t0 st ->
  t0 <= now_check env -> now_check env <= now_stamp env ->
  rateInv t0 (detectMotion env st).
Proof.
  intros Inv H1 H2. unfold rateInv in *.
  destruct (detectMotion_store env st) as [[-> ->]|(_ & _ & Hgap & -> & ->)];
    [exact Inv|].
  right. rewrite length_app. cbn [length].
  unfold CAPTURE_COOLDOWN in *.
  destruct Inv as [->|Inv]; [cbn [length]; lia|lia].
Qed.

Lemma run_rateInv (t0 T : Z) (evs : list Event) :
  forall t st,
    rateInv t0 st -> t0 <= t -> lastCaptureTimeRef st <= T ->
    clock_ok t evs -> clockUpTo T evs ->
    rateInv t0 (run evs st) /\ lastCaptureTimeRef (run evs st) <= T.
Proof.
  unfold clockUpTo.
  induction evs as [|ev evs IH]; intros t st Inv Ht HT Hclock Hup; [auto|].
  rewrite run_cons. apply Forall_cons in Hup as [Hev Hup].
  destruct ev as [granted|env|v]; cbn [handle clock_ok] in *.
  - destruct (toggleDetection_store granted st) as (Hl & Hf).
    apply (IH t); try assumption; [|lia].
    unfold rateInv. destruct Hf as [Hf|Hf]; rewrite Hf; [|left; reflexivity].
    rewrite Hl. exact Inv.
  - destruct Hclock as (H1 & H2 & Hrest).
    destruct (detectionIntervalRef st).
    + apply (IH (now_stamp env)); try assumption; try lia.
      * apply detectMotion_rateInv; [exact Inv|lia|lia].
      * destruct (detectMotion_store env st) as [[_ ->]|(_ & _ & _ & _ & ->)]; lia.
    + apply (IH (now_stamp env)); try assumption; lia.
  - apply (IH t); assumption.
Qed.

(** X15: the capture store is rate limited: along any session whose clock
    readings of lines 173 and 180 all lie between [t0] and [T] and never
    run backwards (whenever the updaters read theirs), the store holds at
    most one frame per started second: (n - 1) * 1000 <= T - t0 for a store
    of n frames. *)
Theorem capture_rate_limited (evs : list Event) (t0 T : Z) :
  0 <= t0 <= T -> clock_ok t0 evs -> clockUpTo T evs ->
  (Z.of_nat (length (capturedFrames (run evs initialState))) - 1) * CAPTURE_COOLDOWN
    <= T - t0.
Proof.
  intros Ht Hclock Hup.
  destruct (run_rateInv t0 T evs t0 initialState) as [Hrate Hlast];
    [left; reflexivity | lia | cbn; lia | exact Hclock | exact Hup |].
  unfold rateInv, CAPTURE_COOLDOWN in *.
  destruct Hrate as [->|Hrate]; [cbn [length]|]; lia.
Qed.

Lemma capture_rate_limited_witness :
  clock_ok 1700000000000 flameSession /\
  clockUpTo 1700000001200 flameSession /\
  length (capturedFrames (run flameSession initialState)) = 2%nat /\
  (Z.of_nat (length (capturedFrames (run flameSession initialState))) - 1)
    * CAPTURE_COOLDOWN <= 1700000001200 - 1700000000000.
Proof.
  assert (H1 : clock_ok 1700000000000 flameSession) by (cbn; lia).
  assert (H2 : clockUpTo 1700000001200 flameSession).
  { unfold clockUpTo, flameSession. repeat constructor; cbn; lia. }
  split; [exact H1|]. split; [exact H2|]. split; [vm_compute; reflexivity|].
  apply (capture_rate_limited flameSession 1700000000000 1700000001200);
    [lia | exact H1 | exact H2].
Defined.

Lemma drawn_app (t u : list Effect) : drawn (t ++ u) = drawn t ++ drawn u.
Proof. unfold drawn. apply flat_map_app. Qed.

Lemma logged_app (t u : list Effect) : logged (t ++ u) = logged t ++ logged u.
Proof. unfold logged. apply flat_map_app. Qed.

Lemma drawn_cons (e : Effect) (t : list Effect) :
  drawn (e :: t) =
  match e with ClearAndDraw url => url :: drawn t | _ => drawn t end.
Proof. destruct e; reflexivity. Qed.

Lemma logged_cons (e : Effect) (t : list Effect) :
  logged (e :: t) =
  match e with LogFrameFailed i => i :: logged t | _ => logged t end.
Proof. destruct e; reflexivity. Qed.

Lemma drawn_frames (env : AssemblyEnv) (l : list CapturedFrame) :
  forall F : nat -> CapturedFrame -> Effect,
    (forall j f, exists i, F j f = frameEffect env i f) ->
    drawn (imap F l) = List.filter (decodes env) (map dataUrl l) /\
    (length (drawn (imap F l)) + length (logged (imap F l)))%nat = length l.
Proof.
  induction l as [|f l IH]; intros F HF; [split; reflexivity|].
  destruct (IH (F ∘ S)) as [IHd IHn]; [intros j g; apply HF|].
  rewrite imap_cons, drawn_cons, logged_cons.
  destruct (HF 0%nat f) as [i ->].
  cbn [map List.filter length]. unfold frameEffect, decodes at 1.
  rewrite IHd in IHn |- *.
  destruct (decode env (dataUrl f)); cbn [length]; split;
    try reflexivity; lia.
Qed.

(** X16: when the assembly runs (N >= 2 frames, a drawing context, a
    first frame that decodes, N + 1 timer callbacks or more), the frames
    drawn on the canvas are exactly the frames that decode, each once and in
    capture order; every other frame is logged, so drawn and logged frames
    add up to N. *)
Theorem timelapse_draws_decodable (env : AssemblyEnv) (st : AppState)
    (first : CapturedFrame) (fuel : nat) :
  (2 <= length (capturedFrames st))%nat ->
  ctx env = true ->
  capturedFrames st !! 0%nat = Some first ->
  decodes env (dataUrl first) = true ->
  (length (capturedFrames st) < fuel)%nat ->
  drawn (trace (snd (createTimelapse fuel env st))) =
    List.filter (decodes env) (map dataUrl (capturedFrames st)) /\
  (length (drawn (trace (snd (createTimelapse fuel env st)))) +
   length (logged (trace (snd (createTimelapse fuel env st)))))%nat =
    length (capturedFrames st).
Proof.
  intros Hn Hctx Hfirst Hdec Hfuel. unfold createTimelapse, decodes in *.
  destruct (Nat.ltb_spec (length (capturedFrames st)) 2) as [Hlt|_]; [lia|].
  rewrite Hctx, Hfirst. cbn [negb].
  destruct (decode env (dataUrl first)) as [[w h]|]; [|discriminate].
  rewrite (timers_from env (capturedFrames st) (length (capturedFrames st)) 0)
    by (simpl; lia).
  rewrite drop_0. cbn [snd trace].
  rewrite !drawn_app, !logged_app, !length_app.
  destruct (drawn_frames env (capturedFrames st)
              (fun j => frameEffect env (0 + j))) as [Hd Hl];
    [intros j f; eexists; reflexivity|].
  rewrite Hd. cbn [drawn logged flat_map app length] in *.
  rewrite app_nil_r. split; [reflexivity|].
  rewrite <- Hl, Hd. lia.
Qed.

Lemma timelapse_draws_decodable_witness :
  (2 <= length (capturedFrames brokenLast))%nat /\
  drawn (trace (snd (createTimelapse 3 decodeEnv brokenLast))) = [sampleUrl] /\
  logged (trace (snd (createTimelapse 3 decodeEnv brokenLast))) = [1%nat].
Proof.
  assert (H2 : (2 <= length (capturedFrames brokenLast))%nat) by (simpl; lia).
  assert (H3 : (length (capturedFrames brokenLast) < 3)%nat) by (simpl; lia).
  destruct (timelapse_draws_decodable decodeEnv brokenLast
              (mkCaptured "data:image/webp;base64,UklGRg" 1700000000000) 3
              H2 eq_refl eq_refl eq_refl H3) as [Hd _].
  split; [exact H2|]. split; [exact Hd|reflexivity].
Defined.

(** * A still scene *)

Lemma detectMotion_still (d : list Z) (env : TickEnv) (st : AppState) :
  stillInv d st ->
  data (getImageData env) = d ->
  detectFire (getImageData env) = false ->
  stillInv d (detectMotion env st).
Proof.
  intros Inv Hd Hfire.
  unfold detectMotion.
  destruct (noVideo env); [exact Inv|].
  destruct (negb (context2d env)); [exact Inv|].
  destruct Inv as (Hf & Hm & Hfi & Ho & Hs & Hp).
  rewrite Hfire.
  destruct st as [prevF actx osc src itv last [act mo fi] err frames sens].
  cbn in Hf, Hm, Hfi, Ho, Hs, Hp. subst frames mo fi osc.
  unfold updateFire, captureStep, stillInv.
  cbn -[motionHeuristic getImageData Z.le].
  destruct prevF as [prev|].
  - rewrite (same_data_no_motion (getImageData env) prev sens)
      by (try rewrite (Hp prev eq_refl); auto).
    cbn -[getImageData Z.le]. repeat split; try lia.
    intros p Hp'. injection Hp' as <-. exact Hd.
  - cbn -[getImageData Z.le]. repeat split; try lia.
    intros p Hp'. injection Hp' as <-. exact Hd.
Qed.

Lemma handle_still (w h : Z) (d : list Z) (ev : Event) (st : AppState) :
  detectFire (mkImageData w h d) = false ->
  stillInv d st ->
  match ev with
  | Tick env => getImageData env = mkImageData w h d
  | Slider v => 0 <= v <= 100
  | Toggle _ => True
  end ->
  stillInv d (handle ev st).
Proof.
  intros Hfire Inv Hev. destruct ev as [granted|env|v]; cbn [handle].
  - destruct Inv as (Hf & Hm & Hfi & Ho & Hs & Hp).
    destruct st as [prevF actx osc [] [] last [[] mo fi] err frames sens];
      destruct granted; cbn in *; subst; unfold stillInv, setError; cbn;
      repeat split; try assumption; try lia.
  - destruct (detectionIntervalRef st); [|exact Inv].
    apply detectMotion_still; [exact Inv| |]; rewrite Hev; [reflexivity|exact Hfire].
  - destruct Inv as (Hf & Hm & Hfi & Ho & Hs & Hp).
    repeat split; try assumption; cbn; lia.
Qed.

(** X17: in front of a still scene without fire nothing ever happens:
    if every tick samples the same frame, that frame is not classified as
    fire and the slider stays within [0,100], then throughout the session
    (starts and stops included) no motion and no fire is flagged, the alarm
    never sounds and no frame is captured. *)
Theorem still_scene_stays_quiet (w h : Z) (d : list Z) (evs : list Event) :
  detectFire (mkImageData w h d) = false ->
  stillScene w h d evs ->
  capturedFrames (run evs initialState) = [] /\
  motionDetected (detection (run evs initialState)) = false /\
  fireDetected (detection (run evs initialState)) = false /\
  oscillatorRef (run evs initialState) = None.
Proof.
  intros Hfire Hstill.
  assert (Hrun : forall evs st, stillScene w h d evs -> stillInv d st ->
            stillInv d (run evs st)).
  { clear evs Hstill. unfold stillScene.
    induction evs as [|ev evs IH]; intros st Hs Inv; [exact Inv|].
    apply Forall_cons in Hs as [Hev Hs]. rewrite run_cons.
    apply IH; [exact Hs|]. apply (handle_still w h); assumption. }
  destruct (Hrun evs initialState Hstill) as (Hf & Hm & Hfi & Ho & _).
  - repeat split; cbn; try lia. intros prev Hp. discriminate Hp.
  - repeat split; assumption.
Qed.

Lemma still_scene_stays_quiet_witness :
  detectFire (mkImageData 1 1 black) = false /\
  stillScene 1 1 black blackWall /\
  capturedFrames (run blackWall initialState) = [] /\
  oscillatorRef (run blackWall initialState) = None.
Proof.
  assert (H1 : detectFire (mkImageData 1 1 black) = false) by (vm_compute; reflexivity).
  assert (H2 : stillScene 1 1 black blackWall).
  { unfold stillScene, blackWall. repeat constructor; lia. }
  destruct (still_scene_stays_quiet 1 1 black blackWall H1 H2) as (Hf & _ & _ & Ho).
  split; [exact H1|]. split; [exact H2|]. split; [exact Hf|exact Ho].
Defined.

(** * The handlers under React's scheduling *)

Lemma renderFrom_app (r : RenderEnv) (q q' : list Update) :
  forall k st,
    renderFrom r k (q ++ q') st =
    renderFrom r (k + length q) q' (renderFrom r k q st).
Proof.
  induction q as [|u q IH]; intros k st; cbn [app renderFrom length].
  - rewrite Nat.add_0_r. reflexivity.
  - rewrite IH. f_equal. lia.
Qed.

Lemma applyUpdate_alarmOk (t : Q) (n : Z) (u : Update) (st : AppState) :
  quiet u = true -> alarmOk st -> alarmOk (applyUpdate t n u st).
Proof.
  unfold alarmOk, sounding.
  destruct u; try discriminate; intros _;
    destruct st as [prevF [] [osc|] src itv last [act mo []] err frames sens];
    try destruct fire; cbn; intros H; try discriminate H; reflexivity.
Qed.

Lemma renderFrom_alarmOk (r : RenderEnv) (q : list Update) :
  forallb quiet q = true ->
  forall k st, alarmOk st -> alarmOk (renderFrom r k q st).
Proof.
  induction q as [|u q IH]; intros Hq k st Hst; [exact Hst|].
  cbn [forallb] in Hq. apply andb_prop in Hq as [Hu Hq].
  cbn [renderFrom]. apply IH; [exact Hq|].
  apply applyUpdate_alarmOk; assumption.
Qed.

Section RefWrites.

Variable f : AppState -> AppState.
Hypothesis f_update :
  forall t n u st, applyUpdate t n u (f st) = f (applyUpdate t n u st).

Lemma renderFrom_write (r : RenderEnv) (q : list Update) :
  forall k st, renderFrom r k q (f st) = f (renderFrom r k q st).
Proof.
  induction q as [|u q IH]; intros k st; [reflexivity|].
  cbn [renderFrom]. rewrite f_update. apply IH.
Qed.

End RefWrites.

Ltac update_commutes :=
  intros t n u st;
  destruct u as [fire|fire|motion|url| | | |txt|val];
  destruct st as [prevF [] [osc|] src itv last [act mo []] err frames sens];
  try destruct fire;
  reflexivity.

Lemma applyUpdate_srcObject (b : bool) :
  forall t n u st,
    applyUpdate t n u (set_srcObject b st) = set_srcObject b (applyUpdate t n u st).
Proof. update_commutes. Qed.

Lemma applyUpdate_detectionIntervalRef (b : bool) :
  forall t n u st,
    applyUpdate t n u (set_detectionIntervalRef b st) =
    set_detectionIntervalRef b (applyUpdate t n u st).
Proof. update_commutes. Qed.

Lemma applyUpdate_previousFrameRef (v : option ImageData) :
  forall t n u st,
    applyUpdate t n u (set_previousFrameRef v st) =
    set_previousFrameRef v (applyUpdate t n u st).
Proof. update_commutes. Qed.

Lemma applyUpdate_lastCaptureTimeRef (v : Z) :
  forall t n u st,
    applyUpdate t n u (set_lastCaptureTimeRef v st) =
    set_lastCaptureTimeRef v (applyUpdate t n u st).
Proof. update_commutes. Qed.

Lemma renderFrom_srcObject (b : bool) (r : RenderEnv) (q : list Update) k st :
  renderFrom r k q (set_srcObject b st) = set_srcObject b (renderFrom r k q st).
Proof. apply renderFrom_write, applyUpdate_srcObject. Qed.

Lemma renderFrom_detectionIntervalRef (b : bool) (r : RenderEnv) (q : list Update) k st :
  renderFrom r k q (set_detectionIntervalRef b st) =
  set_detectionIntervalRef b (renderFrom r k q st).
Proof. apply renderFrom_write, applyUpdate_detectionIntervalRef. Qed.

Lemma renderFrom_previousFrameRef (v : option ImageData) (r : RenderEnv)
    (q : list Update) k st :
  renderFrom r k q (set_previousFrameRef v st) =
  set_previousFrameRef v (renderFrom r k q st).
Proof. apply renderFrom_write, applyUpdate_previousFrameRef. Qed.

Lemma renderFrom_lastCaptureTimeRef (v : Z) (r : RenderEnv) (q : list Update) k st :
  renderFrom r k q (set_lastCaptureTimeRef v st) =
  set_lastCaptureTimeRef v (renderFrom r k q st).
Proof. apply renderFrom_write, applyUpdate_lastCaptureTimeRef. Qed.

Lemma settledOk_enqueue (us : list Update) (c : Component) :
  forallb quiet us = true -> settledOk c -> settledOk (enqueue us c).
Proof.
  intros Hq Inv r k. unfold enqueue. cbn [queue appState].
  rewrite renderFrom_app. apply renderFrom_alarmOk; [exact Hq|apply Inv].
Qed.

Lemma settledOk_write (f : AppState -> AppState) (c : Component) :
  (forall t n u st, applyUpdate t n u (f st) = f (applyUpdate t n u st)) ->
  (forall st, alarmOk st -> alarmOk (f st)) ->
  settledOk c -> settledOk (mkComponent (f (appState c)) (queue c)).
Proof.
  intros Hf Hok Inv r k. cbn [queue appState].
  rewrite (renderFrom_write f Hf). apply Hok, Inv.
Qed.

Lemma settledOk_captureStep (env : TickEnv) (motion fire : bool) (c : Component) :
  settledOk c -> settledOk (Scheduled.captureStep env motion fire c).
Proof.
  intros Inv. unfold Scheduled.captureStep.
  destruct (_ && _); [|exact Inv].
  destruct (captureFrame env) as [u|]; [|exact Inv].
  destruct (truthy u); [|exact Inv].
  apply (settledOk_write (set_lastCaptureTimeRef (now_stamp env)));
    [apply applyUpdate_lastCaptureTimeRef|intros st H; exact H|].
  apply settledOk_enqueue; [reflexivity|exact Inv].
Qed.

Lemma settledOk_fire (env : TickEnv) (fire eager : bool) (c : Component) :
  settledOk c ->
  settledOk match queue c with
            | [] =>
                if eager then
                  mkComponent (alarmEffect (audioTime env) fire (appState c))
                              [FireComputed fire]
                else enqueue [FireUpdate fire] c
            | _ :: _ => enqueue [FireUpdate fire] c
            end.
Proof.
  intros Inv. destruct c as [st q]. cbn [queue appState].
  destruct q as [|u q]; [destruct eager|];
    try (apply settledOk_enqueue; [reflexivity|exact Inv]).
  intros r k. cbn [queue appState renderFrom].
  apply (applyUpdate_alarmOk (audioTime env) 0 (FireUpdate fire) st eq_refl).
  exact (Inv r k).
Qed.

Lemma settledOk_detectMotion (env : TickEnv) (s : Z) (eager : bool) (c : Component) :
  settledOk c -> settledOk (Scheduled.detectMotion env s eager c).
Proof.
  intros Inv. unfold Scheduled.detectMotion.
  destruct (noVideo env); [exact Inv|].
  destruct (negb (context2d env)); [exact Inv|].
  cbv zeta.
  apply (settledOk_write (set_previousFrameRef (Some (getImageData env))));
    [apply applyUpdate_previousFrameRef|intros st H; exact H|].
  pose proof (settledOk_fire env (detectFire (getImageData env)) eager c Inv) as Hf.
  destruct (previousFrameRef _) as [prev|]; [|exact Hf].
  apply settledOk_captureStep, settledOk_enqueue; [reflexivity|exact Hf].
Qed.

Lemma settledOk_step (s : Scheduled.Step) (c : Component) :
  match s with
  | Scheduled.Click => isActive (detection (appState c)) = true -> queue c = []
  | _ => True
  end ->
  settledOk c -> settledOk (Scheduled.step s c).
Proof.
  intros Hcalm Inv. destruct s as [|granted| |env sens eager|v| |r0]; cbn [Scheduled.step].
  - unfold Scheduled.toggleDetection.
    destruct (isActive (detection (appState c))) eqn:Ha; [|exact Inv].
    cbn [negb]. specialize (Hcalm eq_refl).
    destruct c as [st q]. cbn [queue appState] in *. subst q.
    intros r k.
    destruct st as [prevF actx [osc|] [] [] last det err frames sens];
      reflexivity.
  - unfold Scheduled.startCamera. destruct granted.
    + apply (settledOk_enqueue [ErrorText ""] (mkComponent _ _) eq_refl).
      apply (settledOk_write (set_srcObject true));
        [apply applyUpdate_srcObject|intros st H; exact H|exact Inv].
    + apply settledOk_enqueue; [reflexivity|exact Inv].
  - unfold Scheduled.onloadedmetadata.
    apply (settledOk_enqueue [Activate] (mkComponent _ _) eq_refl).
    apply (settledOk_write (set_detectionIntervalRef true));
      [apply applyUpdate_detectionIntervalRef|intros st H; exact H|exact Inv].
  - apply settledOk_detectMotion, Inv.
  - apply settledOk_enqueue; [reflexivity|exact Inv].
  - unfold Scheduled.createTimelapse.
    destruct (_ <? _)%nat; [|exact Inv].
    apply settledOk_enqueue; [reflexivity|exact Inv].
  - intros r k. exact (Inv r0 0%nat).
Qed.

(** X8: the alarm follows the fire flag once the queued updates have run.
    Along every schedule of clicks, camera callbacks, interval ticks, slider
    moves and renders from the initial state, in which no click stops an
    active session while updates are waiting, running the waiting updates
    leaves a state where the oscillator exists exactly when [fireDetected]
    is set.  In particular this holds of the state itself whenever nothing
    is waiting.  The tick's updater may run at once or at the render, the
    tick may close over any sensitivity. *)
Theorem alarm_follows_fire (steps : list Scheduled.Step) (r : RenderEnv) :
  Scheduled.calmStops (atRest initialState) steps ->
  let c := Scheduled.run steps (atRest initialState) in
  let st := render r (queue c) (appState c) in
  sounding st = fireDetected (detection st).
Proof.
  intros Hcalm.
  assert (Hrun : forall steps c, settledOk c -> Scheduled.calmStops c steps ->
            settledOk (Scheduled.run steps c)).
  { clear. induction steps as [|s steps IH]; intros c Inv Hcalm; [exact Inv|].
    destruct Hcalm as [Hs Hcalm].
    change (Scheduled.run (s :: steps) c) with (Scheduled.run steps (Scheduled.step s c)).
    apply IH; [|exact Hcalm].
    apply settledOk_step; [destruct s; auto|exact Inv]. }
  apply (Hrun steps (atRest initialState)); [|exact Hcalm].
  intros r' k. reflexivity.
Qed.

Lemma alarm_follows_fire_witness :
  Scheduled.calmStops (atRest initialState) fireSeen /\
  queue (Scheduled.run fireSeen (atRest initialState)) = [] /\
  sounding (appState (Scheduled.run fireSeen (atRest initialState))) = true /\
  (let c := Scheduled.run fireSeen (atRest initialState) in
   let st := render (renderAt 0) (queue c) (appState c) in
   sounding st = fireDetected (detection st)).
Proof.
  assert (H : Scheduled.calmStops (atRest initialState) fireSeen).
  { vm_compute. repeat split; intros; reflexivity || discriminate. }
  split; [exact H|]. split; [vm_compute; reflexivity|].
  split; [vm_compute; reflexivity|].
  exact (alarm_follows_fire fireSeen (renderAt 0) H).
Defined.






(** X18: a stop that overtakes a render leaves the alarm on.  Monitoring
    runs, nothing is waiting, no fire is flagged and no oscillator exists; a
    tick samples a frame classified as fire and its updater is left for the
    render; the button is clicked before that render.  [stopCamera] finds
    no oscillator to stop, and the render then runs the updater of
    lines 149-153, which starts the alarm, and the update of line 97, which
    clears the flags: the oscillator exists while monitoring is off, the
    flags are clear, the interval and the stream are gone and the store is
    empty. *)
Theorem alarm_outlives_stop (env : TickEnv) (s : Z) (r : RenderEnv) (st : AppState) :
  isActive (detection st) = true ->
  fireDetected (detection st) = false ->
  oscillatorRef st = None ->
  sampled env = true ->
  detectFire (getImageData env) = true ->
  let c := Scheduled.run [Scheduled.Interval env s false; Scheduled.Click;
                          Scheduled.Render r] (atRest st) in
  queue c = [] /\
  sounding (appState c) = true /\
  detection (appState c) = mkDetection false false false /\
  detectionIntervalRef (appState c) = false /\
  srcObject (appState c) = false /\
  capturedFrames (appState c) = [].
Proof.
  intros Hact Hfi Hosc Hs Hfire. cbv zeta.
  unfold Scheduled.run. cbn [fold_left Scheduled.step].
  unfold Scheduled.detectMotion, atRest. cbn [queue appState].
  unfold sampled in Hs.
  destruct (noVideo env) eqn:Hv; [discriminate|].
  destruct (context2d env) eqn:Hc; [|discriminate].
  cbn [negb]. cbv zeta. rewrite Hfire.
  unfold Scheduled.captureStep, captureFrame, enqueue, Scheduled.toggleDetection,
    Scheduled.stopCamera, render.
  rewrite Hv, Hc.
  destruct st as [prevF actx osc src itv last [act mo fi] err frames sens].
  cbn in Hact, Hfi, Hosc. subst act fi osc.
  destruct prevF as [prev|].
  - cbn -[motionHeuristic Z.ltb Z.sub getImageData CAPTURE_COOLDOWN truthy].
    generalize (motionHeuristic (getImageData env) prev s). intros motion.
    generalize (getImageData env). intros cur.
    destruct (CAPTURE_COOLDOWN <? now_check env - last);
      destruct (truthy (encoded env));
      destruct motion, actx, src, itv; cbn; repeat split.
  - generalize (getImageData env). intros cur.
    destruct actx, src, itv; cbn; repeat split.
Qed.

Lemma alarm_outlives_stop_witness :
  isActive (detection monitoring) = true /\
  sampled (tickAt 1 1 flame 1700000000000) = true /\
  detectFire (getImageData (tickAt 1 1 flame 1700000000000)) = true /\
  (let c := Scheduled.run
              [Scheduled.Interval (tickAt 1 1 flame 1700000000000) 30 false;
               Scheduled.Click; Scheduled.Render (renderAt 1700000000050)]
              (atRest monitoring) in
   queue c = [] /\
   sounding (appState c) = true /\
   detection (appState c) = mkDetection false false false /\
   detectionIntervalRef (appState c) = false /\
   srcObject (appState c) = false /\
   capturedFrames (appState c) = []).
Proof.
  assert (H : detectFire (getImageData (tickAt 1 1 flame 1700000000000)) = true)
    by (vm_compute; reflexivity).
  split; [reflexivity|]. split; [reflexivity|]. split; [exact H|].
  exact (alarm_outlives_stop (tickAt 1 1 flame 1700000000000) 30
           (renderAt 1700000000050) monitoring eq_refl eq_refl eq_refl eq_refl H).
Defined.
